(** * FFT / inverse FFT / constant-Q transform engine (src/FFT/fft.cpp)

    A shallow embedding of the C++ translation unit.  Machine [int]s are
    integers of [Z] with the 32-bit wrap-around written out, [float] is IEEE
    binary32 and [double] IEEE binary64, both through the Standard Library's
    executable [SpecFloat] operations, the three file-level tables and the two
    kernel vectors form the record [engine], and every entry point is a
    function from the engine before the call to the engine after it. *)

From Stdlib Require Import ZArith Lia Bool List.
From Stdlib Require Import Floats.SpecFloat.
From stdpp Require Import base tactics option list.

Local Open Scope Z_scope.

(** ** Machine integers *)

Module Int.

(** Two's complement reduction of an integer to the range of [int]. *)
Definition wrap32 (z : Z) : Z := (z + 2 ^ 31) mod 2 ^ 32 - 2 ^ 31.

Definition in_range (z : Z) : Prop := - 2 ^ 31 <= z < 2 ^ 31.

Definition add (a b : Z) : Z := wrap32 (a + b).
Definition sub (a b : Z) : Z := wrap32 (a - b).
Definition mul (a b : Z) : Z := wrap32 (a * b).
(** [a << 1] and [a >> 1] (arithmetic shift). *)
Definition shl1 (a : Z) : Z := wrap32 (Z.shiftl a 1).
Definition shr1 (a : Z) : Z := Z.shiftr a 1.

End Int.

(** ** Floating point: binary32 and binary64 *)

Module F32.

Definition prec : Z := 24.
Definition emax : Z := 128.

Definition float : Type := spec_float.

Definition add : float -> float -> float := SFadd prec emax.
Definition sub : float -> float -> float := SFsub prec emax.
Definition mul : float -> float -> float := SFmul prec emax.
Definition div : float -> float -> float := SFdiv prec emax.
Definition neg : float -> float := SFopp.

(** The comparisons of C++: every comparison with a NaN is false. *)
Definition le (x y : float) : bool := SFleb x y.
Definition ge (x y : float) : bool := SFleb y x.
Definition eqb (x y : float) : bool := SFeqb x y.

(** Conversion of an [int] to [float] (round to nearest even). *)
Definition of_Z (z : Z) : float := binary_normalize prec emax z 0 false.

Definition zero : float := S754_zero false.
Definition one : float := Eval vm_compute in of_Z 1.
Definition two : float := Eval vm_compute in of_Z 2.
Definition half : float := Eval vm_compute in div one two.



(** Neither a NaN nor an infinity. *)
Definition is_finite (x : float) : bool :=
  match x with
  | S754_zero _ | S754_finite _ _ _ => true
  | S754_infinity _ | S754_nan => false
  end.

Definition is_zero (x : float) : bool :=
  match x with S754_zero _ => true | _ => false end.

(** [static_cast<int>(x)]: truncation toward zero; the conversion is
    undefined when the truncated value is not an [int] (NaN, infinities,
    magnitudes of 2^31 and more), which is [None] here. *)
Definition to_int (x : float) : option Z :=
  match x with
  | S754_zero _ => Some 0
  | S754_finite s m e =>
      let a := if 0 <=? e then Zpos m * 2 ^ e else Zpos m / 2 ^ (- e) in
      let z := if s then - a else a in
      if (- 2 ^ 31 <=? z) && (z <? 2 ^ 31) then Some z else None
  | S754_infinity _ | S754_nan => None
  end.

(** [ceilf]: the least integral value not below [x], which is always
    representable; zeros, infinities and NaN are returned as they are, and a
    result that rounds up to zero keeps the sign of [x]. *)
Definition ceilf (x : float) : float :=
  match x with
  | S754_finite s m e =>
      if 0 <=? e then x
      else
        let d := 2 ^ (- e) in
        let q := if s then - (Zpos m / d) else - ((- Zpos m) / d) in
        binary_normalize prec emax q 0 s
  | _ => x
  end.

End F32.

Module F64.

Definition prec : Z := 53.
Definition emax : Z := 1024.

Definition double : Type := spec_float.

Definition mul : double -> double -> double := SFmul prec emax.
Definition div : double -> double -> double := SFdiv prec emax.

Definition of_Z (z : Z) : double := binary_normalize prec emax z 0 false.

(** Widening of a [float] (exact). *)
Definition of_float (x : F32.float) : double :=
  match x with
  | S754_finite s m e => binary_normalize prec emax (cond_Zopp s (Zpos m)) e s
  | _ => x
  end.

(** Narrowing to [float] (round to nearest even, overflow to infinity). *)
Definition to_float (x : double) : F32.float :=
  match x with
  | S754_finite s m e => binary_normalize F32.prec F32.emax (cond_Zopp s (Zpos m)) e s
  | _ => x
  end.

(** [M_PI] of <math.h>: 0x400921FB54442D18. *)
Definition M_PI : double := S754_finite false 7074237752028440 (-51).

End F64.

Import F32(float).

(** ** The C library

    [cosf], [sinf] and [powf] come from the platform's libm; the translation
    unit fixes nothing about them, so the embedding takes them as an
    interface.  ([ceilf] is exact and is defined above.) *)
Class LibM := {
  cosf : float -> float;
  sinf : float -> float;
  powf : float -> float -> float
}.

(** ** Arrays

    A block of memory is the list of its cells.  Indexing outside a block is
    undefined in C++; here a read outside yields the default and a write
    outside changes nothing, and the theorems below state the lengths they
    rely on. *)
Definition rd {A} (d : A) (l : list A) (i : Z) : A :=
  if i <? 0 then d else nth (Z.to_nat i) l d.

Definition wr {A} (l : list A) (i : Z) (x : A) : list A :=
  if i <? 0 then l else <[Z.to_nat i := x]> l.

Definition rdf : list float -> Z -> float := rd F32.zero.

(** [std::swap(a[i], a[j])]. *)
Definition swap (l : list float) (i j : Z) : list float :=
  let tmp := rdf l i in wr (wr l i (rdf l j)) j tmp.

(** A caller's [float*]: [None] is the null pointer. *)
Definition buffer : Type := option (list float).

(** ** Loops *)

(** [for (int i = lo; i < hi; i++) body], the body pure. *)
Definition for_range {S} (lo hi : Z) (body : Z -> S -> S) (s : S) : S :=
  foldl (fun s i => body i s) s (seqZ lo (hi - lo)).

(** The same loop with a body that may get stuck. *)
Fixpoint forM {S} (idx : list Z) (body : Z -> S -> option S) (s : S) : option S :=
  match idx with
  | [] => Some s
  | i :: idx => s' ← body i s; forM idx body s'
  end.

(** ** Engine state: the file-level variables *)

Record engine := Engine {
  twiddleReal : option (list float);
  twiddleImag : option (list float);
  bitReversalIndices : option (list Z);
  cqtKernelReal : list (list float);
  cqtKernelImag : list (list float)
}.

(** The state at program start. *)
Definition engine0 : engine := Engine None None None [] [].

Definition with_tables (tr ti : option (list float)) (rev : option (list Z))
    (e : engine) : engine :=
  Engine tr ti rev (cqtKernelReal e) (cqtKernelImag e).

Definition with_kernels (kr ki : list (list float)) (e : engine) : engine :=
  Engine (twiddleReal e) (twiddleImag e) (bitReversalIndices e) kr ki.

Definition isPowerOfTwo (n : Z) : bool :=
  (0 <? n) && (Z.land n (n - 1) =? 0).

(** ** initFFT *)

Section InitFFT.
Context {L : LibM}.

(** [float angle = -2.0f * M_PI * i / n]: evaluated in [double], then
    narrowed. *)
Definition twiddle_angle (i n : Z) : float :=
  F64.to_float
    (F64.div (F64.mul (F64.mul (F64.of_float (F32.neg F32.two)) F64.M_PI) (F64.of_Z i))
             (F64.of_Z n)).

(** The first loop of [initFFT] over two fresh blocks of [n / 2] cells. *)
Definition fill_twiddles (n : Z) (tw : list float * list float) : list float * list float :=
  for_range 0 (Z.quot n 2)
    (fun i '(tr, ti) =>
       let angle := twiddle_angle i n in
       (wr tr i (cosf angle), wr ti i (sinf angle)))
    tw.

(** [while (j & bit) { j ^= bit; bit >>= 1; }]: at most one round per bit of
    an [int], whence the fuel. *)
Fixpoint rev_carry (fuel : nat) (j bit : Z) : option (Z * Z) :=
  match fuel with
  | O => None
  | S fuel =>
      if Z.land j bit =? 0 then Some (j, bit)
      else rev_carry fuel (Z.lxor j bit) (Int.shr1 bit)
  end.

(** One round of the second loop: store [j], then advance it. *)
Definition rev_step (n i : Z) (s : list Z * Z) : option (list Z * Z) :=
  let '(tab, j) := s in
  let tab := wr tab i j in
  '(j, bit) ← rev_carry 32 j (Int.shr1 n);
  Some (tab, Z.lxor j bit).

Definition fill_bit_reversal (n : Z) (tab : list Z) : option (list Z) :=
  fst <$> forM (seqZ 0 n) (rev_step n) (tab, 0).

(** A block as [malloc] returns it; every cell is written before it is read,
    so the initial contents do not matter. *)
Definition block {A} (d : A) (n : Z) : list A := replicate (Z.to_nat n) d.

(** [got_tr], [got_ti] and [got_rev] tell whether the three [malloc] calls
    returned a block.  [None]: the carry loop did not stop within 32 rounds. *)
Definition initFFT (got_tr got_ti got_rev : bool) (n : Z) (e : engine)
    : option (bool * engine) :=
  if negb (isPowerOfTwo n) then Some (false, e)
  else if negb got_tr || negb got_ti then
    Some (false, with_tables None None (bitReversalIndices e) e)
  else
    let '(tr, ti) :=
      fill_twiddles n (block F32.zero (Z.quot n 2), block F32.zero (Z.quot n 2)) in
    if negb got_rev then Some (false, with_tables None None None e)
    else
      rev ← fill_bit_reversal n (block 0 n);
      Some (true, with_tables (Some tr) (Some ti) (Some rev) e).

End InitFFT.

(** ** fft and ifft *)

Section Transform.

Definition bufs : Type := list float * list float.

(** The first loop of [fft]: the bit-reversal permutation. *)
Definition permute (rev : list Z) (n : Z) (b : bufs) : bufs :=
  for_range 0 n
    (fun i '(re, im) =>
       let j := rd 0 rev i in
       if i <? j then (swap re i j, swap im i j) else (re, im))
    b.

Section Stages.
Variable twr : list float.
Variable twi : option (list float).
Variable n : Z.

(** The body of the innermost loop.  [twiddleImag] is read without a null
    test; reading through a null pointer is stuck. *)
Definition butterfly (half step i j : Z) (b : bufs) : option bufs :=
  let '(real, imag) := b in
  let even := Int.add i j in
  let odd := Int.add even half in
  let k := Int.mul j step in
  twi ← twi;
  let re := F32.sub (F32.mul (rdf real odd) (rdf twr k)) (F32.mul (rdf imag odd) (rdf twi k)) in
  let im := F32.add (F32.mul (rdf real odd) (rdf twi k)) (F32.mul (rdf imag odd) (rdf twr k)) in
  let real := wr real odd (F32.sub (rdf real even) re) in
  let imag := wr imag odd (F32.sub (rdf imag even) im) in
  let real := wr real even (F32.add (rdf real even) re) in
  let imag := wr imag even (F32.add (rdf imag even) im) in
  Some (real, imag).

(** [for (int i = 0; i < n; i += len)]. *)
Fixpoint blocks (len half step : Z) (fuel : nat) (i : Z) (b : bufs) : option bufs :=
  match fuel with
  | O => None
  | S fuel =>
      if i <? n then
        b ← forM (seqZ 0 half) (butterfly half step i) b;
        blocks len half step fuel (Int.add i len) b
      else Some b
  end.

(** [for (int len = 2; len <= n; len <<= 1)]; [n / len] with [len = 0] is
    stuck. *)
Fixpoint stages (fuel : nat) (len : Z) (b : bufs) : option bufs :=
  match fuel with
  | O => None
  | S fuel =>
      if len <=? n then
        if len =? 0 then None
        else
          let half := Z.quot len 2 in
          let step := Z.quot n len in
          b ← blocks len half step (S (Z.to_nat n)) 0 b;
          stages fuel (Int.shl1 len) b
      else Some b
  end.

End Stages.

(** The result of a transform: the returned flag, the two caller buffers and
    the engine after the call.  [None]: stuck or out of fuel. *)
Definition outcome : Type := option (bool * buffer * buffer * engine).

Definition fft (real imag : buffer) (n : Z) (e : engine) : outcome :=
  if negb (isPowerOfTwo n) then Some (false, real, imag, e)
  else
    match real, imag, twiddleReal e, bitReversalIndices e with
    | Some re, Some im, Some twr, Some rev =>
        '(re, im) ← stages twr (twiddleImag e) n 32 2 (permute rev n (re, im));
        Some (true, Some re, Some im, e)
    | _, _, _, _ => Some (false, real, imag, e)
    end.

Definition ifft (real imag : buffer) (n : Z) (e : engine) : outcome :=
  if negb (isPowerOfTwo n) then Some (false, real, imag, e)
  else
    match real, imag with
    | Some re, Some im =>
        let invN := F32.div F32.one (F32.of_Z n) in
        let im := for_range 0 n (fun i im => wr im i (F32.neg (rdf im i))) im in
        r ← fft (Some re) (Some im) n e;
        match r with
        | (true, Some re, Some im, e) =>
            let '(re, im) :=
              for_range 0 n
                (fun i '(re, im) =>
                   (wr re i (F32.mul (rdf re i) invN),
                    wr im i (F32.mul (rdf im i) (F32.neg invN))))
                (re, im) in
            Some (true, Some re, Some im, e)
        | (_, re, im, e) => Some (false, re, im, e)
        end
    | _, _ => Some (false, real, imag, e)
    end.

End Transform.

(** ** initCQT *)

(** The division of [float invFilterLenMinus1 = 1.0f / (filterLen - 1)] is a
    parameter of the kernel construction: the program runs it with the IEEE
    division, which answers an infinity for a zero divisor, and the same code
    can be run with a division that refuses a zero divisor. *)
Definition ieee_div (x y : float) : option float := Some (F32.div x y).

Definition guarded_div (x y : float) : option float :=
  if F32.is_zero y then None else Some (F32.div x y).

Section InitCQT.
Context {L : LibM}.
Variable window_div : float -> float -> option float.

(** [v.resize(count, row)] for a count that is not negative. *)
Definition resize (count : Z) (row : list float) (bank : list (list float))
    : list (list float) :=
  take (Z.to_nat count) bank ++ replicate (Z.to_nat count - length bank) row.

(** [float Q = 1.0f / (powf(2.0f, 1.0f / binsPerOctave) - 1.0f)]. *)
Definition quality (binsPerOctave : Z) : float :=
  F32.div F32.one
    (F32.sub (powf F32.two (F32.div F32.one (F32.of_Z binsPerOctave))) F32.one).

(** [float freq = minFreq * powf(2.0f, static_cast<float>(k) / binsPerOctave)]. *)
Definition bin_freq (binsPerOctave : Z) (minFreq : float) (k : Z) : float :=
  F32.mul minFreq (powf F32.two (F32.div (F32.of_Z k) (F32.of_Z binsPerOctave))).

(** [freq <= 0 || freq >= sampleRate / 2]. *)
Definition out_of_band (sampleRate freq : float) : bool :=
  F32.le freq F32.zero || F32.ge freq (F32.div sampleRate F32.two).

(** [static_cast<int>(ceilf(Q * sampleRate / freq))], then the clamp to [n]. *)
Definition raw_filter_len (Q sampleRate freq : float) : option Z :=
  F32.to_int (F32.ceilf (F32.div (F32.mul Q sampleRate) freq)).

Definition clamp_len (n filterLen : Z) : Z :=
  if n <? filterLen then n else filterLen.

(** The loop that fills [tempReal] and [tempImag] for one bin. *)
Definition window_arg (i : Z) (invFilterLenMinus1 : float) : float :=
  F64.to_float
    (F64.mul (F64.mul (F64.mul (F64.of_float F32.two) F64.M_PI) (F64.of_Z i))
             (F64.of_float invFilterLenMinus1)).

Definition carrier_arg (freq t sampleRate : float) : float :=
  F64.to_float
    (F64.div
       (F64.mul (F64.mul (F64.mul (F64.of_float F32.two) F64.M_PI) (F64.of_float freq))
                (F64.of_float t))
       (F64.of_float sampleRate)).

Definition time_kernel (n filterLen : Z) (sampleRate freq : float) : option bufs :=
  invFilterLenMinus1 ← window_div F32.one (F32.of_Z (filterLen - 1));
  Some (for_range 0 filterLen
    (fun i '(tempReal, tempImag) =>
       let t := F32.sub (F32.of_Z i)
                  (F32.div (F32.sub (F32.of_Z filterLen) F32.one) F32.two) in
       let window :=
         F32.sub F32.half (F32.mul F32.half (cosf (window_arg i invFilterLenMinus1))) in
       (wr tempReal i (F32.mul window (cosf (carrier_arg freq t sampleRate))),
        wr tempImag i (F32.mul window (sinf (carrier_arg freq t sampleRate)))))
    (block F32.zero n, block F32.zero n)).

(** [bank[k][i] = x]. *)
Definition wr2 (bank : list (list float)) (k i : Z) (x : float) : list (list float) :=
  wr bank k (wr (rd [] bank k) i x).

Definition store_kernel (n k : Z) (temp : list float) (bank : list (list float))
    : list (list float) :=
  for_range 0 n (fun i bank => wr2 bank k i (rdf temp i)) bank.

(** One round of the loop over the bins.  The flag of the result tells
    whether the loop goes on ([true]) or [initCQT] returns [false]. *)
Definition cqt_bin (binsPerOctave n : Z) (sampleRate minFreq Q : float) (k : Z)
    (s : bool * engine) : option (bool * engine) :=
  let '(go, e) := s in
  if negb go then Some s
  else
    let freq := bin_freq binsPerOctave minFreq k in
    if out_of_band sampleRate freq then Some (true, e)
    else
      filterLen ← raw_filter_len Q sampleRate freq;
      let filterLen := clamp_len n filterLen in
      if filterLen <=? 0 then Some (true, e)
      else
        '(tempReal, tempImag) ← time_kernel n filterLen sampleRate freq;
        r ← fft (Some tempReal) (Some tempImag) n e;
        match r with
        | (true, Some tempReal, Some tempImag, e) =>
            Some (true, with_kernels (store_kernel n k tempReal (cqtKernelReal e))
                                     (store_kernel n k tempImag (cqtKernelImag e)) e)
        | (_, _, _, e) => Some (false, e)
        end.

(** [None]: a negative count reaches [resize] (it throws), the conversion of
    the filter length to [int] is undefined, the window division is refused,
    or the inner [fft] is stuck. *)
Definition initCQT_with (binsPerOctave octaves n : Z) (sampleRate minFreq : float)
    (e : engine) : option (bool * engine) :=
  if (binsPerOctave <=? 0) || (octaves <=? 0) || (n <=? 0)
     || F32.le sampleRate F32.zero || F32.le minFreq F32.zero
  then Some (false, e)
  else
    let totalBins := Int.mul binsPerOctave octaves in
    if totalBins <? 0 then None
    else
      let e := with_kernels (resize totalBins (block F32.zero n) (cqtKernelReal e))
                            (resize totalBins (block F32.zero n) (cqtKernelImag e)) e in
      let Q := quality binsPerOctave in
      forM (seqZ 0 totalBins) (cqt_bin binsPerOctave n sampleRate minFreq Q) (true, e).

End InitCQT.

Definition initCQT {L : LibM} := initCQT_with ieee_div.
Definition initCQT_guarded {L : LibM} := initCQT_with guarded_div.

(** ** cqt *)

(** The inner loop of [cqt] for bin [k]: the two running sums. *)
Definition cqt_sums (inputReal inputImag kernelReal kernelImag : list float) (n : Z)
    : float * float :=
  for_range 0 n
    (fun i '(sumReal, sumImag) =>
       (F32.add sumReal
          (F32.sub (F32.mul (rdf inputReal i) (rdf kernelReal i))
                   (F32.mul (rdf inputImag i) (rdf kernelImag i))),
        F32.add sumImag
          (F32.add (F32.mul (rdf inputReal i) (rdf kernelImag i))
                   (F32.mul (rdf inputImag i) (rdf kernelReal i)))))
    (F32.zero, F32.zero).

(** The result of [cqt]: the flag, the two output buffers, the engine. *)
Definition cqt (inputReal inputImag outputReal outputImag : buffer)
    (n binsPerOctave octaves : Z) (e : engine) : bool * buffer * buffer * engine :=
  match inputReal, inputImag, outputReal, outputImag with
  | Some inR, Some inI, Some outR, Some outI =>
      if (binsPerOctave <=? 0) || (octaves <=? 0) || (n <=? 0)
      then (false, outputReal, outputImag, e)
      else
        let totalBins := Int.mul binsPerOctave octaves in
        if Int.wrap32 (Z.of_nat (length (cqtKernelReal e))) <? totalBins
        then (false, outputReal, outputImag, e)
        else
          let invN := F32.div F32.one (F32.of_Z n) in
          let '(outR, outI) :=
            for_range 0 totalBins
              (fun k '(outR, outI) =>
                 let '(sumReal, sumImag) :=
                   cqt_sums inR inI (rd [] (cqtKernelReal e) k) (rd [] (cqtKernelImag e) k) n in
                 (wr outR k (F32.mul sumReal invN), wr outI k (F32.mul sumImag invN)))
              (outR, outI) in
          (true, Some outR, Some outI, e)
  | _, _, _, _ => (false, outputReal, outputImag, e)
  end.

(** ** freeFFT and freeCQT *)

Definition freeFFT (e : engine) : bool * engine :=
  (true, with_tables None None None e).

Definition freeCQT (e : engine) : bool * engine :=
  (true, with_kernels [] [] e).

(** ** Reference notions used in the statements *)

(** The index whose [k] low bits are those of [i] in reverse order. *)
Fixpoint rev_bits (k : nat) (i : Z) : Z :=
  match k with
  | O => 0
  | S k => (i mod 2) * 2 ^ Z.of_nat k + rev_bits k (i / 2)
  end.

(** The unit impulse and the constant sequences of length [n]. *)
Definition impulse (n : Z) : list float :=
  F32.one :: replicate (Z.to_nat n - 1) F32.zero.

Definition constant (x : float) (n : Z) : list float := replicate (Z.to_nat n) x.

(** A block all of whose cells are finite (neither NaN nor infinite). *)
Definition all_finite (l : list float) : Prop :=
  Forall (fun x => F32.is_finite x = true) l.

Definition one_or_zero (x : float) : Prop := x = F32.one \/ x = F32.zero.

(** Two buffers of [n] cells: [m] ones, then zeros, in the real part; the
    imaginary part all +0. *)
Definition ones_then_zeros (n m : Z) (b : bufs) : Prop :=
  Z.of_nat (length (fst b)) = n /\ Z.of_nat (length (snd b)) = n
  /\ forall i, 0 <= i < n ->
       rdf (fst b) i = (if i <? m then F32.one else F32.zero)
       /\ rdf (snd b) i = F32.zero.

Definition same_lengths (b b' : bufs) : Prop :=
  length (fst b') = length (fst b) /\ length (snd b') = length (snd b).

(** Complex numbers over [float] with the textbook operations, for the
    statements about [cqt]. *)
Module Cx.

Record complex := C { re : float; im : float }.

Definition zero : complex := C F32.zero F32.zero.

Definition add (a b : complex) : complex :=
  C (F32.add (re a) (re b)) (F32.add (im a) (im b)).

Definition mul (a b : complex) : complex :=
  C (F32.sub (F32.mul (re a) (re b)) (F32.mul (im a) (im b)))
    (F32.add (F32.mul (re a) (im b)) (F32.mul (im a) (re b))).

Definition conj (a : complex) : complex := C (re a) (F32.neg (im a)).

Definition scale (s : float) (a : complex) : complex :=
  C (F32.mul (re a) s) (F32.mul (im a) s).

Definition of_lists (real imag : list float) : list complex := zip_with C real imag.

(** The sum of [x_i * k_i], accumulated from index 0 upwards. *)
Definition dot (xs ks : list complex) : complex :=
  foldl (fun acc p => add acc (mul (fst p) (snd p))) zero (zip xs ks).

(** The sum of [x_i * conj k_i], accumulated from index 0 upwards. *)
Definition dot_conj (xs ks : list complex) : complex :=
  dot xs (conj <$> ks).

End Cx.

(** ** A sample libm

    The values a correctly rounding libm returns at the arguments the worked
    examples below exercise: the exact cases [powf(x, 0) = 1], [powf(x, 1) = x],
    [cosf(0) = 1], [sinf(0) = 0], the twiddle angles of a transform of
    length 8, and the angles pi/4 and 2 pi of a two-sample kernel.  Everywhere
    else the table answers NaN; no example reads it there. *)
Definition same_float (x y : float) : bool :=
  match x, y with
  | S754_zero a, S754_zero b => Bool.eqb a b
  | S754_infinity a, S754_infinity b => Bool.eqb a b
  | S754_nan, S754_nan => true
  | S754_finite a m e, S754_finite b m' e' => Bool.eqb a b && Pos.eqb m m' && Z.eqb e e'
  | _, _ => false
  end.

Definition tabulated (table : list (float * float)) (x : float) : float :=
  match find (fun p => same_float (fst p) x) table with
  | Some p => snd p
  | None => S754_nan
  end.

Definition sample_cosf (x : float) : float :=
  if F32.is_zero x then F32.one
  else tabulated
    [ (S754_finite true 13176795 (-24), S754_finite false 11863283 (-24));
      (S754_finite true 13176795 (-23), S754_finite true 12303662 (-48));
      (S754_finite true 9882596 (-22), S754_finite true 11863283 (-24));
      (S754_finite false 13176795 (-24), S754_finite false 11863283 (-24));
      (S754_finite false 13176795 (-21), S754_finite false 8388608 (-23)) ] x.

Definition sample_sinf (x : float) : float :=
  if F32.is_zero x then x
  else tabulated
    [ (S754_finite true 13176795 (-24), S754_finite true 11863283 (-24));
      (S754_finite true 13176795 (-23), S754_finite true 8388608 (-23));
      (S754_finite true 9882596 (-22), S754_finite true 11863283 (-24));
      (S754_finite false 13176795 (-24), S754_finite false 11863283 (-24));
      (S754_finite false 13176795 (-21), S754_finite false 12303662 (-46)) ] x.

Definition sample_powf (x y : float) : float :=
  if F32.is_zero y then F32.one
  else if same_float y F32.one then x
  else S754_nan.

Definition sample_libm : LibM :=
  {| cosf := sample_cosf; sinf := sample_sinf; powf := sample_powf |}.

(** The engine after [initFFT(8)] with the sample libm. *)
Definition engine8 : engine :=
  Eval vm_compute in
    match initFFT (L := sample_libm) true true true 8 engine0 with
    | Some (_, e) => e
    | None => engine0
    end.

(** The engines after [initFFT(1)] and [initFFT(2)] with the sample libm. *)
Definition engine1 : engine :=
  Eval vm_compute in
    match initFFT (L := sample_libm) true true true 1 engine0 with
    | Some (_, e) => e
    | None => engine0
    end.

Definition engine2 : engine :=
  Eval vm_compute in
    match initFFT (L := sample_libm) true true true 2 engine0 with
    | Some (_, e) => e
    | None => engine0
    end.

(** The engine after [initFFT(2)] and [initCQT(1, 2, 2, 8, 2)]. *)
Definition engine2_cqt : engine :=
  Eval vm_compute in
    match initCQT (L := sample_libm) 1 2 2 (F32.of_Z 8) (F32.of_Z 2) engine2 with
    | Some (_, e) => e
    | None => engine0
    end.

(** A bank of one kernel of one cell, the imaginary unit. *)
Definition unit_bank : engine := with_kernels [[F32.zero]] [[F32.one]] engine0.

(** The engine after [initFFT(1)] and [initCQT(1, 1, 1, 8, 1)]. *)
Definition engine1_cqt : engine :=
  Eval vm_compute in
    match initCQT (L := sample_libm) 1 1 1 (F32.of_Z 8) (F32.of_Z 1) engine1 with
    | Some (_, e) => e
    | None => engine0
    end.

(** Every entry the first loop of [initFFT n] stores is finite, as it is
    for a libm whose [cosf] and [sinf] stay within [-1, 1]. *)
Definition finite_twiddles {L : LibM} (n : Z) : Prop :=
  forall i, 0 <= i < n / 2 ->
    F32.is_finite (cosf (twiddle_angle i n)) = true
    /\ F32.is_finite (sinf (twiddle_angle i n)) = true.

(** Bin [k] of [initCQT] is passed over by one of the two [continue]s: its
    frequency is out of band, or its clamped filter length is not positive. *)
Definition bin_skipped {L : LibM} (binsPerOctave n : Z) (sampleRate minFreq : float) (k : Z)
    : Prop :=
  let freq := bin_freq binsPerOctave minFreq k in
  out_of_band sampleRate freq = true
  \/ exists filterLen,
       raw_filter_len (quality binsPerOctave) sampleRate freq = Some filterLen
       /\ clamp_len n filterLen <= 0.

(** * Properties *)

(** ** Loops *)

Lemma for_range_nil {S} (lo hi : Z) (body : Z -> S -> S) (s : S) :
  hi <= lo -> for_range lo hi body s = s.
Proof. intros. unfold for_range. rewrite seqZ_nil by lia. reflexivity. Qed.

Lemma for_range_step {S} (lo hi : Z) (body : Z -> S -> S) (s : S) :
  lo < hi -> for_range lo hi body s = for_range (lo + 1) hi body (body lo s).
Proof.
  intros. unfold for_range. rewrite seqZ_cons by lia. simpl.
  do 2 f_equal; lia.
Qed.

(** Invariant rule for the counted loop. *)
Lemma for_range_inv {S} (P : Z -> S -> Prop) (lo hi : Z) (body : Z -> S -> S) (s : S) :
  lo <= hi ->
  P lo s ->
  (forall i s, lo <= i < hi -> P i s -> P (i + 1) (body i s)) ->
  P hi (for_range lo hi body s).
Proof.
  intros Hle H0 Hstep.
  remember (Z.to_nat (hi - lo)) as m eqn:Hm.
  revert lo s Hle H0 Hstep Hm.
  induction m as [|m IH]; intros lo s Hle H0 Hstep Hm.
  - assert (lo = hi) as -> by lia. rewrite for_range_nil by lia. exact H0.
  - rewrite for_range_step by lia.
    apply IH; [lia| apply Hstep; [lia|exact H0] | | lia].
    intros i s' Hi. apply Hstep. lia.
Qed.

Lemma forM_seqZ_nil {S} (lo len : Z) (body : Z -> S -> option S) (s : S) :
  len <= 0 -> forM (seqZ lo len) body s = Some s.
Proof. intros. rewrite seqZ_nil by lia. reflexivity. Qed.

Lemma forM_seqZ_step {S} (lo len : Z) (body : Z -> S -> option S) (s : S) :
  0 < len ->
  forM (seqZ lo len) body s = body lo s ≫= forM (seqZ (lo + 1) (len - 1)) body.
Proof. intros. rewrite seqZ_cons by lia. reflexivity. Qed.

(** Invariant rule for the counted loop whose body may get stuck: when every
    round keeps the invariant and is not stuck, the loop is not stuck. *)
Lemma forM_inv {S} (P : Z -> S -> Prop) (lo len : Z) (body : Z -> S -> option S) (s : S) :
  0 <= len ->
  P lo s ->
  (forall i s, lo <= i < lo + len -> P i s -> exists s', body i s = Some s' /\ P (i + 1) s') ->
  exists s', forM (seqZ lo len) body s = Some s' /\ P (lo + len) s'.
Proof.
  intros Hle H0 Hstep.
  remember (Z.to_nat len) as m eqn:Hm.
  revert lo len s Hle H0 Hstep Hm.
  induction m as [|m IH]; intros lo len s Hle H0 Hstep Hm.
  - assert (len = 0) as -> by lia. rewrite forM_seqZ_nil by lia.
    exists s. split; [reflexivity|]. replace (lo + 0) with lo by lia. exact H0.
  - rewrite forM_seqZ_step by lia.
    destruct (Hstep lo s) as (s1 & -> & H1); [lia|exact H0|]. simpl.
    destruct (IH (lo + 1) (len - 1) s1) as (s2 & E2 & H2); [lia|exact H1| |lia|].
    + intros i s' Hi. apply Hstep. lia.
    + exists s2. split; [exact E2|]. replace (lo + len) with (lo + 1 + (len - 1)) by lia.
      exact H2.
Qed.

(** What a finished loop has established, whatever it returned. *)
Lemma forM_post {S} (P : Z -> S -> Prop) (lo len : Z) (body : Z -> S -> option S) (s r : S) :
  0 <= len ->
  P lo s ->
  (forall i s s', lo <= i < lo + len -> P i s -> body i s = Some s' -> P (i + 1) s') ->
  forM (seqZ lo len) body s = Some r ->
  P (lo + len) r.
Proof.
  intros Hle H0 Hstep.
  remember (Z.to_nat len) as m eqn:Hm.
  revert lo len s Hle H0 Hstep Hm.
  induction m as [|m IH]; intros lo len s Hle H0 Hstep Hm E.
  - assert (len = 0) as -> by lia. rewrite forM_seqZ_nil in E by lia.
    inversion E; subst. replace (lo + 0) with lo by lia. exact H0.
  - rewrite forM_seqZ_step in E by lia.
    destruct (body lo s) as [s1|] eqn:E1; [|discriminate]. simpl in E.
    replace (lo + len) with (lo + 1 + (len - 1)) by lia.
    apply (IH (lo + 1) (len - 1) s1); [lia| |  |lia|exact E].
    + apply (Hstep lo s); [lia|exact H0|exact E1].
    + intros i s2 s3 Hi. apply Hstep. lia.
Qed.

(** ** Arrays *)

Lemma length_wr {A} (l : list A) (i : Z) (x : A) : length (wr l i x) = length l.
Proof. unfold wr. destruct (i <? 0); [reflexivity|apply length_insert]. Qed.

Lemma rd_wr_eq {A} (d : A) (l : list A) (i : Z) (x : A) :
  0 <= i < Z.of_nat (length l) -> rd d (wr l i x) i = x.
Proof.
  intros H. unfold rd, wr. destruct (i <? 0) eqn:E; [lia|].
  rewrite nth_lookup, list_lookup_insert_eq by lia. reflexivity.
Qed.

Lemma rd_wr_ne {A} (d : A) (l : list A) (i j : Z) (x : A) :
  i <> j -> rd d (wr l i x) j = rd d l j.
Proof.
  intros H. unfold rd, wr. destruct (j <? 0) eqn:Ej; [reflexivity|].
  destruct (i <? 0) eqn:Ei; [reflexivity|].
  rewrite !nth_lookup, list_lookup_insert_ne by lia. reflexivity.
Qed.

Lemma rd_outside {A} (d : A) (l : list A) (i : Z) :
  i < 0 \/ Z.of_nat (length l) <= i -> rd d l i = d.
Proof.
  intros H. unfold rd. destruct (i <? 0) eqn:E; [reflexivity|].
  apply nth_overflow. lia.
Qed.

Lemma wr_same {A} (d : A) (l : list A) (i : Z) : wr l i (rd d l i) = l.
Proof.
  unfold wr, rd. destruct (i <? 0); [reflexivity|].
  destruct (l !! Z.to_nat i) as [y|] eqn:E.
  - rewrite nth_lookup, E. simpl. apply list_insert_id, E.
  - apply list_insert_ge, lookup_ge_None, E.
Qed.

Lemma rd_replicate {A} (d x : A) (m : nat) (i : Z) :
  0 <= i < Z.of_nat m -> rd d (replicate m x) i = x.
Proof.
  intros H. unfold rd. destruct (i <? 0) eqn:E; [lia|].
  rewrite nth_lookup, lookup_replicate_2 by lia. reflexivity.
Qed.

(** Two blocks of one length with the same cells are the same block. *)
Lemma list_eq_rd {A} (d : A) (l1 l2 : list A) :
  length l1 = length l2 ->
  (forall i, 0 <= i < Z.of_nat (length l1) -> rd d l1 i = rd d l2 i) ->
  l1 = l2.
Proof.
  intros Hlen H. apply list_eq. intros i.
  destruct (decide (i < length l1)%nat) as [Hi|Hi].
  - specialize (H (Z.of_nat i)). unfold rd in H.
    destruct (Z.of_nat i <? 0) eqn:E; [lia|]. rewrite Nat2Z.id, !nth_lookup in H.
    destruct (lookup_lt_is_Some_2 l1 i Hi) as [x Hx].
    destruct (lookup_lt_is_Some_2 l2 i ltac:(lia)) as [y Hy].
    rewrite Hx, Hy in *. simpl in H. f_equal. apply H. lia.
  - rewrite !lookup_ge_None_2 by lia. reflexivity.
Qed.

(** ** Machine integers *)

Lemma wrap32_id (z : Z) : Int.in_range z -> Int.wrap32 z = z.
Proof.
  unfold Int.in_range, Int.wrap32. intros H.
  rewrite Z.mod_small by lia. lia.
Qed.

Lemma wrap32_range (z : Z) : Int.in_range (Int.wrap32 z).
Proof.
  unfold Int.in_range, Int.wrap32.
  pose proof (Z.mod_pos_bound (z + 2 ^ 31) (2 ^ 32) ltac:(lia)). lia.
Qed.

Lemma pow2_pos (k : Z) : 0 <= k -> 0 < 2 ^ k.
Proof. intros. apply Z.pow_pos_nonneg; lia. Qed.

Lemma pow2_succ (k : nat) : 2 ^ Z.of_nat (S k) = 2 * 2 ^ Z.of_nat k.
Proof. rewrite Nat2Z.inj_succ, Z.pow_succ_r by lia. reflexivity. Qed.

Lemma pow2_le_mono (a b : Z) : 0 <= a <= b -> 2 ^ a <= 2 ^ b.
Proof. intros. apply Z.pow_le_mono_r; lia. Qed.

(** ** isPowerOfTwo *)

Lemma isPowerOfTwo_pow2 (k : Z) : 0 <= k -> isPowerOfTwo (2 ^ k) = true.
Proof.
  intros Hk. unfold isPowerOfTwo. pose proof (pow2_pos k Hk).
  apply andb_true_intro. split; [apply Z.ltb_lt; lia|].
  apply Z.eqb_eq. replace (2 ^ k - 1) with (Z.ones k) by (rewrite Z.ones_equiv; lia).
  rewrite Z.land_ones by lia. apply Z_mod_same_full.
Qed.

Lemma isPowerOfTwo_inv (n : Z) :
  isPowerOfTwo n = true -> exists k, 0 <= k /\ n = 2 ^ k.
Proof.
  unfold isPowerOfTwo. intros H. apply andb_prop in H as [Hpos Hland].
  apply Z.ltb_lt in Hpos. apply Z.eqb_eq in Hland.
  exists (Z.log2 n). pose proof (Z.log2_nonneg n) as Hk. split; [exact Hk|].
  destruct (Z.log2_spec n Hpos) as [Hlo Hhi].
  destruct (Z.eq_dec n (2 ^ Z.log2 n)) as [|Hne]; [assumption|exfalso].
  assert (Z.log2 (n - 1) = Z.log2 n) as Hlog.
  { apply Z.log2_unique; [exact Hk|]. lia. }
  assert (Z.testbit (Z.land n (n - 1)) (Z.log2 n) = true) as Hbit.
  { rewrite Z.land_spec, Z.bit_log2 by lia. rewrite <- Hlog.
    rewrite Z.bit_log2; [reflexivity|]. pose proof (pow2_pos _ Hk). lia. }
  rewrite Hland, Z.bits_0 in Hbit. discriminate.
Qed.

Lemma isPowerOfTwo_pos (n : Z) : isPowerOfTwo n = true -> 0 < n.
Proof. unfold isPowerOfTwo. intros H. apply andb_prop in H as [H _]. lia. Qed.

(** A power of two in the range of [int], with its exponent as a [nat]. *)
Lemma isPowerOfTwo_nat (n : Z) :
  isPowerOfTwo n = true -> n < 2 ^ 31 ->
  exists k : nat, (k <= 30)%nat /\ n = 2 ^ Z.of_nat k.
Proof.
  intros H Hn. destruct (isPowerOfTwo_inv n H) as (k & Hk & ->).
  exists (Z.to_nat k). rewrite Z2Nat.id by lia. split; [|reflexivity].
  destruct (Z_lt_le_dec k 31) as [|Hge]; [lia|].
  pose proof (pow2_le_mono 31 k ltac:(lia)). lia.
Qed.

(** ** Bit reversal *)

Lemma rev_bits_S (k : nat) (i : Z) :
  rev_bits (S k) i = (i mod 2) * 2 ^ Z.of_nat k + rev_bits k (i / 2).
Proof. reflexivity. Qed.

Lemma rev_bits_range (k : nat) (i : Z) : 0 <= rev_bits k i < 2 ^ Z.of_nat k.
Proof.
  revert i. induction k as [|k IH]; intros i; [simpl; lia|].
  cbn [rev_bits]. rewrite pow2_succ.
  pose proof (IH (i / 2)). pose proof (Z.mod_pos_bound i 2 ltac:(lia)).
  pose proof (pow2_pos (Z.of_nat k) ltac:(lia)). nia.
Qed.

(** Reversal read from the top bit: the top bit of the argument is the low
    bit of the result. *)
Lemma rev_bits_top (k : nat) (b s : Z) :
  0 <= b <= 1 -> 0 <= s < 2 ^ Z.of_nat k ->
  rev_bits (S k) (b * 2 ^ Z.of_nat k + s) = 2 * rev_bits k s + b.
Proof.
  revert s. induction k as [|k IH]; intros s Hb Hs.
  - change (2 ^ Z.of_nat 0) with 1 in *. assert (s = 0) as -> by lia.
    cbn [rev_bits]. change (2 ^ Z.of_nat 0) with 1.
    rewrite Z.mul_1_r, Z.add_0_r, Z.mod_small by lia. lia.
  - rewrite pow2_succ in Hs.
    pose proof (pow2_pos (Z.of_nat k) ltac:(lia)) as Hp.
    assert ((b * 2 ^ Z.of_nat (S k) + s) mod 2 = s mod 2) as Hm.
    { rewrite pow2_succ.
      replace (b * (2 * 2 ^ Z.of_nat k) + s) with (s + (b * 2 ^ Z.of_nat k) * 2) by lia.
      apply Z_mod_plus_full. }
    assert ((b * 2 ^ Z.of_nat (S k) + s) / 2 = b * 2 ^ Z.of_nat k + s / 2) as Hd.
    { rewrite pow2_succ.
      replace (b * (2 * 2 ^ Z.of_nat k) + s) with (s + (b * 2 ^ Z.of_nat k) * 2) by lia.
      rewrite Z_div_plus_full by lia. lia. }
    change (rev_bits (S (S k)) (b * 2 ^ Z.of_nat (S k) + s))
      with ((b * 2 ^ Z.of_nat (S k) + s) mod 2 * 2 ^ Z.of_nat (S k)
            + rev_bits (S k) ((b * 2 ^ Z.of_nat (S k) + s) / 2)).
    rewrite Hm, Hd, IH; [|lia|].
    + cbn [rev_bits]. rewrite pow2_succ. lia.
    + split; [apply Z.div_pos; lia|]. apply Z.div_lt_upper_bound; lia.
Qed.

Lemma rev_bits_involutive (k : nat) (i : Z) :
  0 <= i < 2 ^ Z.of_nat k -> rev_bits k (rev_bits k i) = i.
Proof.
  revert i. induction k as [|k IH]; intros i Hi.
  - change (2 ^ Z.of_nat 0) with 1 in Hi. simpl. lia.
  - rewrite pow2_succ in Hi. rewrite (rev_bits_S k i), rev_bits_top.
    + rewrite IH; [pose proof (Z.div_mod i 2 ltac:(lia)); lia|].
      split; [apply Z.div_pos; lia|]. apply Z.div_lt_upper_bound; lia.
    + pose proof (Z.mod_pos_bound i 2 ltac:(lia)). lia.
    + apply rev_bits_range.
Qed.

Lemma rev_bits_0 (k : nat) : rev_bits k 0 = 0.
Proof. induction k as [|k IH]; [reflexivity|]. cbn [rev_bits]. rewrite Z.div_0_l, IH by lia. reflexivity. Qed.

(** Bit facts about a value below [2 ^ k] and the bit [2 ^ k]. *)
Lemma land_below_pow2 (k r : Z) : 0 <= k -> 0 <= r < 2 ^ k -> Z.land r (2 ^ k) = 0.
Proof.
  intros Hk Hr. apply Z.bits_inj'. intros m Hm.
  rewrite Z.land_spec, Z.bits_0, Z.pow2_bits_eqb by lia.
  destruct (Z.eqb_spec k m) as [<-|]; [|apply andb_false_r].
  rewrite andb_true_r. destruct (Z.eq_dec r 0) as [->|]; [apply Z.bits_0|].
  apply Z.bits_above_log2; [lia|]. apply Z.log2_lt_pow2; lia.
Qed.

Lemma lxor_below_pow2 (k r : Z) : 0 <= k -> 0 <= r < 2 ^ k -> Z.lxor r (2 ^ k) = r + 2 ^ k.
Proof. intros Hk Hr. symmetry. apply Z.add_nocarry_lxor, land_below_pow2; assumption. Qed.

Lemma lxor_above_pow2 (k r : Z) : 0 <= k -> 0 <= r < 2 ^ k -> Z.lxor (2 ^ k + r) (2 ^ k) = r.
Proof.
  intros Hk Hr. rewrite (Z.add_comm (2 ^ k)), <- lxor_below_pow2 by assumption.
  rewrite Z.lxor_assoc, Z.lxor_nilpotent, Z.lxor_0_r. reflexivity.
Qed.

Lemma land_above_pow2 (k r : Z) : 0 <= k -> 0 <= r < 2 ^ k -> Z.land (2 ^ k + r) (2 ^ k) = 2 ^ k.
Proof.
  intros Hk Hr. rewrite (Z.add_comm (2 ^ k)), <- lxor_below_pow2 by assumption.
  apply Z.bits_inj'. intros m Hm.
  rewrite Z.land_spec, Z.lxor_spec, Z.pow2_bits_eqb by lia.
  destruct (Z.eqb_spec k m) as [<-|]; [|apply andb_false_r].
  rewrite andb_true_r, xorb_true_r. apply negb_true_iff.
  destruct (Z.eq_dec r 0) as [->|]; [apply Z.bits_0|].
  apply Z.bits_above_log2; [lia|]. apply Z.log2_lt_pow2; lia.
Qed.

Lemma shr1_pow2 (k : nat) : Int.shr1 (2 ^ Z.of_nat (S k)) = 2 ^ Z.of_nat k.
Proof.
  unfold Int.shr1. rewrite Z.shiftr_div_pow2, pow2_succ by lia.
  change (2 ^ 1) with 2. rewrite Z.mul_comm, Z_div_mult by lia. reflexivity.
Qed.

(** The carry loop followed by [j ^= bit] is the increment on reversed
    indices: from the reversal of [i] it leads to the reversal of [i + 1], and
    from the last index back to 0. *)
Lemma rev_carry_spec (k : nat) : forall (fuel : nat) (i : Z),
  (k < fuel)%nat -> 0 <= i < 2 ^ Z.of_nat k ->
  exists j bit,
    rev_carry fuel (rev_bits k i) (Int.shr1 (2 ^ Z.of_nat k)) = Some (j, bit)
    /\ Z.lxor j bit = rev_bits k ((i + 1) mod 2 ^ Z.of_nat k).
Proof.
  induction k as [|k IH]; intros fuel i Hf Hi.
  - change (2 ^ Z.of_nat 0) with 1 in *. assert (i = 0) as -> by lia.
    destruct fuel as [|fuel]; [lia|]. exists 0, 0. split; reflexivity.
  - destruct fuel as [|fuel]; [lia|].
    rewrite shr1_pow2. pose proof (pow2_pos (Z.of_nat k) ltac:(lia)) as Hp.
    rewrite pow2_succ in Hi.
    pose proof (Z.div_mod i 2 ltac:(lia)) as Hdm.
    pose proof (Z.mod_pos_bound i 2 ltac:(lia)) as Hb.
    pose proof (rev_bits_range k (i / 2)) as Hr.
    assert (0 <= i / 2 < 2 ^ Z.of_nat k) as Hq.
    { split; [apply Z.div_pos; lia|]. apply Z.div_lt_upper_bound; lia. }
    cbn [rev_bits rev_carry].
    destruct (Z.eq_dec (i mod 2) 0) as [E0|E1].
    + rewrite E0, Z.mul_0_l, Z.add_0_l, land_below_pow2, Z.eqb_refl by lia.
      eexists _, _. split; [reflexivity|].
      rewrite lxor_below_pow2 by lia.
      rewrite pow2_succ, (Z.mod_small (i + 1)) by lia.
      replace (i + 1) with (1 + (i / 2) * 2) by lia.
      rewrite Z_mod_plus_full, Z_div_plus_full by lia.
      change (1 mod 2) with 1. change (1 / 2) with 0. rewrite Z.add_0_l. lia.
    + assert (i mod 2 = 1) as E by lia. rewrite E, Z.mul_1_l.
      rewrite land_above_pow2 by lia.
      destruct (Z.eqb_spec (2 ^ Z.of_nat k) 0) as [|_]; [lia|].
      rewrite lxor_above_pow2 by lia.
      destruct (IH fuel (i / 2)) as (j & bit & Ec & Ex); [lia|exact Hq|].
      exists j, bit. split; [exact Ec|]. rewrite Ex.
      rewrite pow2_succ.
      replace (i + 1) with (2 * (i / 2 + 1)) by lia.
      rewrite Z.mul_mod_distr_l by lia.
      rewrite (Z.mul_comm 2), Z_mod_mult, Z_div_mult by lia. lia.
Qed.

Lemma rd_fmap_seqZ {A} (d : A) (f : Z -> A) (n i : Z) :
  0 <= i < n -> rd d (f <$> seqZ 0 n) i = f i.
Proof.
  intros H. unfold rd. destruct (i <? 0) eqn:E; [lia|].
  rewrite nth_lookup, list_lookup_fmap, lookup_seqZ_lt by lia.
  simpl. f_equal. lia.
Qed.

(** The second loop of [initFFT] on a block of [2 ^ k] cells is never stuck
    and leaves the reversal of [i] in cell [i]. *)
Lemma fill_bit_reversal_spec (k : nat) (tab : list Z) :
  (k <= 30)%nat -> Z.of_nat (length tab) = 2 ^ Z.of_nat k ->
  fill_bit_reversal (2 ^ Z.of_nat k) tab = Some (rev_bits k <$> seqZ 0 (2 ^ Z.of_nat k)).
Proof.
  intros Hk Hlen. unfold fill_bit_reversal.
  pose proof (pow2_pos (Z.of_nat k) ltac:(lia)) as Hp.
  destruct (forM_inv
    (fun m (s : list Z * Z) =>
       length (fst s) = length tab
       /\ snd s = rev_bits k (m mod 2 ^ Z.of_nat k)
       /\ forall i, 0 <= i < m -> rd 0 (fst s) i = rev_bits k i)
    0 (2 ^ Z.of_nat k) (rev_step (2 ^ Z.of_nat k)) (tab, 0)) as (s' & -> & Hl & _ & Hs).
  - lia.
  - simpl. rewrite Z.mod_0_l, rev_bits_0 by lia. repeat split; intros; lia.
  - intros i [t j] Hi (Hl & Hj & Ht). simpl in Hl, Hj, Ht. unfold rev_step.
    rewrite Z.mod_small in Hj by lia. subst j.
    destruct (rev_carry_spec k 32 i) as (j' & bit & -> & Hx); [lia|lia|].
    simpl. eexists. split; [reflexivity|]. simpl.
    rewrite length_wr. split; [exact Hl|]. split; [exact Hx|].
    intros i' Hi'. destruct (Z.eq_dec i' i) as [->|Hne].
    + apply rd_wr_eq. lia.
    + rewrite rd_wr_ne by lia. apply Ht. lia.
  - simpl. f_equal. destruct s' as [t j]. simpl in *.
    apply (list_eq_rd 0).
    + rewrite length_fmap, length_seqZ. lia.
    + intros i Hi. rewrite Hs, rd_fmap_seqZ by lia. reflexivity.
Qed.

Lemma fill_twiddles_spec `{LibM} (n : Z) :
  0 < n ->
  let r := fill_twiddles n (block F32.zero (Z.quot n 2), block F32.zero (Z.quot n 2)) in
  Z.of_nat (length (fst r)) = n / 2 /\ Z.of_nat (length (snd r)) = n / 2
  /\ forall i, 0 <= i < n / 2 ->
       rdf (fst r) i = cosf (twiddle_angle i n) /\ rdf (snd r) i = sinf (twiddle_angle i n).
Proof.
  intros Hn. cbv zeta. unfold fill_twiddles.
  assert (Z.quot n 2 = n / 2) as -> by (apply Z.quot_div_nonneg; lia).
  assert (0 <= n / 2) as Hh by (apply Z.div_pos; lia).
  apply (for_range_inv
    (fun m (s : list float * list float) =>
       Z.of_nat (length (fst s)) = n / 2 /\ Z.of_nat (length (snd s)) = n / 2
       /\ forall i, 0 <= i < m ->
            rdf (fst s) i = cosf (twiddle_angle i n)
            /\ rdf (snd s) i = sinf (twiddle_angle i n))); [exact Hh| |].
  - unfold block. simpl. rewrite length_replicate. repeat split; try lia.
  - intros i [a b] Hi (Ha & Hb & Hc). simpl in *. rewrite !length_wr.
    split; [exact Ha|]. split; [exact Hb|].
    intros i' Hi'. unfold rdf. destruct (Z.eq_dec i' i) as [->|Hne].
    + rewrite !rd_wr_eq by lia. split; reflexivity.
    + rewrite !rd_wr_ne by lia. apply Hc. lia.
Qed.

(** The two loops of [initFFT] pointwise: a transform length [2 ^ k] in the
    range of [int] and three successful allocations give the tables below. *)
Lemma initFFT_tables `{LibM} (k : nat) (e : engine) :
  (k <= 30)%nat ->
  exists tr ti,
    initFFT true true true (2 ^ Z.of_nat k) e
    = Some (true, with_tables (Some tr) (Some ti)
                    (Some (rev_bits k <$> seqZ 0 (2 ^ Z.of_nat k))) e)
    /\ Z.of_nat (length tr) = 2 ^ Z.of_nat k / 2
    /\ Z.of_nat (length ti) = 2 ^ Z.of_nat k / 2
    /\ forall i, 0 <= i < 2 ^ Z.of_nat k / 2 ->
         rdf tr i = cosf (twiddle_angle i (2 ^ Z.of_nat k))
         /\ rdf ti i = sinf (twiddle_angle i (2 ^ Z.of_nat k)).
Proof.
  intros Hk. unfold initFFT. set (n := 2 ^ Z.of_nat k).
  pose proof (pow2_pos (Z.of_nat k) ltac:(lia)) as Hp. fold n in Hp.
  unfold n at 1. rewrite isPowerOfTwo_pow2 by lia. fold n. simpl.
  pose proof (fill_twiddles_spec n Hp) as Hf. cbv zeta in Hf.
  destruct (fill_twiddles n (block F32.zero (Z.quot n 2), block F32.zero (Z.quot n 2)))
    as [tr ti].
  unfold n at 1. rewrite fill_bit_reversal_spec; [|lia|unfold block; rewrite length_replicate; lia].
  simpl. exists tr, ti. split; [reflexivity|exact Hf].
Qed.

(** A successful [initFFT] has passed the three allocations. *)
Lemma initFFT_true_inv `{LibM} (g1 g2 g3 : bool) (n : Z) (e e' : engine) :
  initFFT g1 g2 g3 n e = Some (true, e') ->
  isPowerOfTwo n = true /\ g1 = true /\ g2 = true /\ g3 = true.
Proof.
  unfold initFFT. intros E.
  destruct (isPowerOfTwo n); [|discriminate].
  destruct g1, g2; try discriminate. simpl in E.
  destruct (fill_twiddles _ _) as [tr ti].
  destruct g3; [|discriminate]. repeat split; reflexivity.
Qed.

Lemma rev_bits_table_perm (k : nat) :
  rev_bits k <$> seqZ 0 (2 ^ Z.of_nat k) ≡ₚ seqZ 0 (2 ^ Z.of_nat k).
Proof.
  apply NoDup_Permutation.
  - apply NoDup_fmap_2_strong; [|apply NoDup_seqZ].
    intros x y Hx%elem_of_seqZ Hy%elem_of_seqZ E.
    rewrite <- (rev_bits_involutive k x), <- (rev_bits_involutive k y), E by lia.
    reflexivity.
  - apply NoDup_seqZ.
  - intros x. rewrite list_elem_of_fmap. setoid_rewrite elem_of_seqZ. split.
    + intros (y & -> & _). pose proof (rev_bits_range k y). lia.
    + intros Hx. exists (rev_bits k x). rewrite rev_bits_involutive by lia.
      split; [reflexivity|]. pose proof (rev_bits_range k x). lia.
Qed.

(** C4. For a power of two [n] in the range of [int], [initFFT n] succeeds
    when its allocations do, and the bit-reversal table any successful
    [initFFT n] leaves in the engine has [n] entries, is a permutation of
    [0, n), and is its own inverse: [table[table[i]] = i] for every index. *)
Theorem bit_reversal_table_involution `{LibM} (n : Z) (e : engine) :
  isPowerOfTwo n = true -> n < 2 ^ 31 ->
  (exists e', initFFT true true true n e = Some (true, e'))
  /\ forall g1 g2 g3 e',
       initFFT g1 g2 g3 n e = Some (true, e') ->
       exists table,
         bitReversalIndices e' = Some table
         /\ Z.of_nat (length table) = n
         /\ table ≡ₚ seqZ 0 n
         /\ forall i, 0 <= i < n ->
              0 <= rd 0 table i < n /\ rd 0 table (rd 0 table i) = i.
Proof.
  intros Hpow Hn. destruct (isPowerOfTwo_nat n Hpow Hn) as (k & Hk & ->).
  destruct (initFFT_tables k e Hk) as (tr & ti & E & _).
  split; [eexists; exact E|].
  intros g1 g2 g3 e' E'.
  destruct (initFFT_true_inv _ _ _ _ _ _ E') as (_ & -> & -> & ->).
  rewrite E in E'. inversion E'; subst e'. clear E'.
  exists (rev_bits k <$> seqZ 0 (2 ^ Z.of_nat k)). split; [reflexivity|].
  pose proof (pow2_pos (Z.of_nat k) ltac:(lia)) as Hp.
  split; [rewrite length_fmap, length_seqZ; lia|].
  split; [apply rev_bits_table_perm|].
  intros i Hi. pose proof (rev_bits_range k i) as Hr.
  rewrite !rd_fmap_seqZ by lia.
  split; [exact Hr|apply rev_bits_involutive; lia].
Qed.

Lemma bit_reversal_table_involution_witness :
  isPowerOfTwo 8 = true /\ 8 < 2 ^ 31
  /\ (exists e', initFFT (L := sample_libm) true true true 8 engine0 = Some (true, e'))
  /\ forall g1 g2 g3 e',
       initFFT (L := sample_libm) g1 g2 g3 8 engine0 = Some (true, e') ->
       exists table,
         bitReversalIndices e' = Some table
         /\ Z.of_nat (length table) = 8
         /\ table ≡ₚ seqZ 0 8
         /\ forall i, 0 <= i < 8 ->
              0 <= rd 0 table i < 8 /\ rd 0 table (rd 0 table i) = i.
Proof.
  split; [reflexivity|]. split; [reflexivity|].
  apply (@bit_reversal_table_involution sample_libm 8 engine0); reflexivity.
Defined.

(** ** Floating point: the exact cases the impulse exercises *)

Lemma rdf_finite (l : list float) (i : Z) :
  all_finite l -> F32.is_finite (rdf l i) = true.
Proof.
  intros H. unfold rdf, rd. destruct (i <? 0); [reflexivity|].
  rewrite nth_lookup. destruct (l !! Z.to_nat i) as [x|] eqn:E; [|reflexivity].
  simpl. exact (proj1 (Forall_lookup _ l) H _ _ E).
Qed.

(** A zero times a finite number is a zero. *)
Lemma fmul_zero_finite (t : float) :
  F32.is_finite t = true -> F32.is_zero (F32.mul F32.zero t) = true.
Proof. destruct t; simpl; intros; (reflexivity || discriminate). Qed.

Lemma fsub_zeros (x y : float) :
  F32.is_zero x = true -> F32.is_zero y = true -> F32.is_zero (F32.sub x y) = true.
Proof. destruct x as [[]| | |], y as [[]| | |]; simpl; intros; (reflexivity || discriminate). Qed.

Lemma fadd_zeros (x y : float) :
  F32.is_zero x = true -> F32.is_zero y = true -> F32.is_zero (F32.add x y) = true.
Proof. destruct x as [[]| | |], y as [[]| | |]; simpl; intros; (reflexivity || discriminate). Qed.

(** Adding or subtracting a zero of either sign leaves 1 and +0 as they are. *)
Lemma fsub_zero_r (x z : float) :
  one_or_zero x -> F32.is_zero z = true -> F32.sub x z = x.
Proof. intros [->| ->]; destruct z as [[]| | |]; simpl; intros; (reflexivity || discriminate). Qed.

Lemma fadd_zero_r (x z : float) :
  one_or_zero x -> F32.is_zero z = true -> F32.add x z = x.
Proof. intros [->| ->]; destruct z as [[]| | |]; simpl; intros; (reflexivity || discriminate). Qed.

(** ** The transform of the unit impulse *)

Section Impulse.
Variable twr twi : list float.
Variable n : Z.
Hypothesis twr_finite : all_finite twr.
Hypothesis twi_finite : all_finite twi.
Hypothesis n_range : 0 < n <= 2 ^ 30.

Lemma butterfly_impulse (m half step i j : Z) (b : bufs) :
  ones_then_zeros n m b ->
  0 <= i + j -> 0 < half -> i + j + half < n ->
  m <= i + j + half -> (i + j < m -> i + j + half = m) ->
  exists b', butterfly twr (Some twi) half step i j b = Some b'
    /\ ones_then_zeros n (if i + j <? m then m + 1 else m) b'.
Proof.
  intros (Hlr & Hli & Hb) He Hh Ho Hm Hem. destruct b as [re im]. simpl in Hlr, Hli, Hb.
  unfold butterfly. cbn [mbind option_bind].
  unfold Int.add.
  assert (2 ^ 30 = 1073741824) as P30 by reflexivity.
  rewrite (wrap32_id (i + j)) by (unfold Int.in_range; lia).
  rewrite (wrap32_id (i + j + half)) by (unfold Int.in_range; lia).
  remember (i + j) as even eqn:Heven. remember (even + half) as odd eqn:Hodd.
  set (k := Int.mul j step).
  destruct (Hb odd ltac:(lia)) as [Hro Hio].
  destruct (Hb even ltac:(lia)) as [Hre Hie].
  replace (odd <? m) with false in Hro by (symmetry; apply Z.ltb_ge; lia).
  rewrite Hro, Hio, Hie.
  pose proof (fmul_zero_finite _ (rdf_finite twr k twr_finite)) as Zr.
  pose proof (fmul_zero_finite _ (rdf_finite twi k twi_finite)) as Zi.
  pose proof (fsub_zeros _ _ Zr Zi) as Zre. pose proof (fadd_zeros _ _ Zi Zr) as Zim.
  assert (one_or_zero (rdf re even)) as Hoz.
  { rewrite Hre. destruct (even <? m); [left|right]; reflexivity. }
  assert (one_or_zero F32.zero) as Hz0 by (right; reflexivity).
  rewrite (fsub_zero_r _ _ Hoz Zre), (fsub_zero_r _ _ Hz0 Zim).
  assert (rdf (wr re odd (rdf re even)) even = rdf re even) as E1
    by (apply rd_wr_ne; lia).
  assert (rdf (wr im odd F32.zero) even = F32.zero) as E2
    by (unfold rdf; rewrite rd_wr_ne by lia; exact Hie).
  rewrite E1, E2, (fadd_zero_r _ _ Hoz Zre), (fadd_zero_r _ _ Hz0 Zim).
  eexists. split; [reflexivity|].
  unfold ones_then_zeros. cbn [fst snd]. rewrite !length_wr.
  split; [exact Hlr|]. split; [exact Hli|].
  intros x Hx. destruct (Hb x Hx) as [Hrx Hix]. unfold rdf in *.
  split.
  - destruct (Z.eq_dec x even) as [->|Hne1].
    + rewrite rd_wr_eq by (rewrite ?length_wr; lia). rewrite Hre.
      destruct (Z.ltb_spec even m); cbv iota.
      * rewrite (proj2 (Z.ltb_lt even (m + 1))) by lia. reflexivity.
      * rewrite (proj2 (Z.ltb_ge even m)) by lia. reflexivity.
    + rewrite (rd_wr_ne _ _ even x) by lia.
      destruct (Z.eq_dec x odd) as [->|Hne2].
      * rewrite rd_wr_eq by lia. rewrite Hre. destruct (Z.ltb_spec even m); cbv iota.
        -- rewrite (proj2 (Z.ltb_lt odd (m + 1))) by lia. reflexivity.
        -- rewrite (proj2 (Z.ltb_ge odd m)) by lia. reflexivity.
      * rewrite (rd_wr_ne _ _ odd x) by lia. rewrite Hrx.
        destruct (Z.ltb_spec even m); cbv iota; [|reflexivity].
        destruct (Z.ltb_spec x m), (Z.ltb_spec x (m + 1)); try reflexivity; lia.
  - destruct (Z.eq_dec x even) as [->|Hne1]; [apply rd_wr_eq; rewrite length_wr; lia|].
    rewrite (rd_wr_ne _ _ even x) by lia.
    destruct (Z.eq_dec x odd) as [->|Hne2]; [apply rd_wr_eq; lia|].
    rewrite (rd_wr_ne _ _ odd x) by lia. exact Hix.
Qed.

(** One stage on the impulse: block 0 doubles the run of ones, the other
    blocks combine zeros. *)
Lemma blocks_impulse (len half step c : Z) :
  len = 2 * half -> 0 < half -> n = c * len ->
  forall (fuel : nat) (q : Z) (b : bufs),
    0 <= q <= c -> (Z.to_nat (c - q) < fuel)%nat ->
    ones_then_zeros n (if q =? 0 then half else len) b ->
    exists b', blocks twr (Some twi) n len half step fuel (q * len) b = Some b'
      /\ ones_then_zeros n len b'.
Proof.
  intros Hlen Hhalf Hn.
  assert (2 ^ 30 = 1073741824) as P30 by reflexivity.
  induction fuel as [|fuel IH]; intros q b Hq Hf Hb; [lia|].
  cbn [blocks]. destruct (Z.ltb_spec (q * len) n) as [Hlt|Hge].
  - assert (q < c) as Hqc by nia.
    destruct (forM_inv
      (fun j b => ones_then_zeros n (if q =? 0 then half + j else len) b)
      0 half (butterfly twr (Some twi) half step (q * len)) b) as (b1 & -> & H1).
    + lia.
    + rewrite Z.add_0_r. exact Hb.
    + intros j b0 Hj H0.
      destruct (butterfly_impulse (if q =? 0 then half + j else len) half step (q * len) j b0)
        as (b' & E & H'); try (destruct (Z.eqb_spec q 0); nia); [exact H0|].
      exists b'. split; [exact E|].
      destruct (Z.eqb_spec q 0) as [->|Hq0].
      * rewrite (proj2 (Z.ltb_lt (0 * len + j) (half + j))) in H' by lia.
        replace (half + (j + 1)) with (half + j + 1) by lia. exact H'.
      * rewrite (proj2 (Z.ltb_ge (q * len + j) len)) in H' by nia. exact H'.
    + cbn [mbind option_bind]. unfold Int.add.
      assert (0 <= q * len /\ q * len + len <= n) as Hr by nia.
      assert (Int.in_range (q * len + len)) as Hir by (unfold Int.in_range; lia).
      rewrite (wrap32_id _ Hir).
      replace (q * len + len) with ((q + 1) * len) by ring.
      apply IH; [lia|lia|].
      destruct (Z.eqb_spec (q + 1) 0); [lia|].
      destruct (Z.eqb_spec q 0); [|exact H1].
      replace len with (half + (0 + half)) by lia. exact H1.
  - assert (q = c) as -> by nia. exists b. split; [reflexivity|].
    destruct (Z.eqb_spec c 0); [nia|exact Hb].
Qed.

(** The stages on the impulse, for [n = 2 ^ k] with [k <= 29]: entering the
    stage of length [2 ^ (t + 1)] with [2 ^ t] ones, the loop ends with [n]
    ones. *)
Lemma stages_impulse (k : nat) :
  n = 2 ^ Z.of_nat k -> (k <= 29)%nat ->
  forall (fuel t : nat) (b : bufs),
    (t <= k)%nat -> (k - t < fuel)%nat ->
    ones_then_zeros n (2 ^ Z.of_nat t) b ->
    exists b', stages twr (Some twi) n fuel (2 ^ Z.of_nat (S t)) b = Some b'
      /\ ones_then_zeros n n b'.
Proof.
  intros Hn Hk.
  induction fuel as [|fuel IH]; intros t b Ht Hf Hb; [lia|].
  cbn [stages]. pose proof (pow2_pos (Z.of_nat t) ltac:(lia)) as Hp.
  rewrite pow2_succ.
  destruct (Z.leb_spec (2 * 2 ^ Z.of_nat t) n) as [Hle|Hgt].
  - destruct (Z.eqb_spec (2 * 2 ^ Z.of_nat t) 0) as [|_]; [lia|].
    assert (t < k)%nat as Htk.
    { destruct (decide (t < k)%nat) as [|Hge]; [assumption|].
      assert (t = k) as -> by lia. lia. }
    assert (n = 2 ^ Z.of_nat (k - S t) * (2 * 2 ^ Z.of_nat t)) as Hc.
    { rewrite Hn, <- pow2_succ, <- Z.pow_add_r by lia. f_equal. lia. }
    pose proof (pow2_pos (Z.of_nat (k - S t)) ltac:(lia)) as Hpc.
    assert (Z.quot (2 * 2 ^ Z.of_nat t) 2 = 2 ^ Z.of_nat t) as ->.
    { rewrite Z.quot_div_nonneg, Z.mul_comm, Z_div_mult by lia. reflexivity. }
    destruct (blocks_impulse (2 * 2 ^ Z.of_nat t) (2 ^ Z.of_nat t)
                (Z.quot n (2 * 2 ^ Z.of_nat t)) (2 ^ Z.of_nat (k - S t))
                ltac:(lia) Hp Hc (S (Z.to_nat n)) 0 b) as (b1 & E1 & H1).
    + lia.
    + nia.
    + exact Hb.
    + rewrite Z.mul_0_l in E1. rewrite E1. cbn [mbind option_bind].
      unfold Int.shl1. rewrite Z.shiftl_mul_pow2 by lia. change (2 ^ 1) with 2.
      assert (2 * 2 ^ Z.of_nat t * 2 = 2 ^ Z.of_nat (S (S t))) as ->
        by (rewrite !pow2_succ; lia).
      pose proof (pow2_le_mono (Z.of_nat (S (S t))) 30 ltac:(lia)).
      assert (2 ^ 30 = 1073741824) as P30 by reflexivity.
      pose proof (pow2_pos (Z.of_nat (S (S t))) ltac:(lia)).
      rewrite wrap32_id by (unfold Int.in_range; lia).
      apply IH; [lia|lia|]. rewrite pow2_succ. exact H1.
  - assert (t = k) as ->.
    { destruct (decide (t < k)%nat) as [Hlt|]; [|lia].
      pose proof (pow2_le_mono (Z.of_nat (S t)) (Z.of_nat k) ltac:(lia)) as Hm.
      rewrite pow2_succ in Hm. lia. }
    exists b. split; [reflexivity|]. rewrite <- Hn in Hb. exact Hb.
Qed.

End Impulse.

Lemma swap_zeros (l : list float) (i j : Z) :
  rdf l i = F32.zero -> rdf l j = F32.zero -> swap l i j = l.
Proof.
  intros Hi Hj. unfold swap. rewrite Hj, Hi.
  assert (wr l i F32.zero = l) as -> by (rewrite <- Hi; apply wr_same).
  rewrite <- Hj. apply wr_same.
Qed.

(** The bit-reversal permutation leaves the impulse where it is, since the
    table maps 0 to 0 and every other swap exchanges two zeros. *)
Lemma permute_impulse (rev : list Z) (n : Z) (b : bufs) :
  0 < n -> rd 0 rev 0 = 0 -> ones_then_zeros n 1 b -> permute rev n b = b.
Proof.
  intros Hn H0 (Hlr & Hli & Hb). unfold permute.
  apply (for_range_inv (fun _ s => s = b)); [lia|reflexivity|].
  intros i s Hi ->. destruct b as [re im]. simpl in *.
  destruct (Z.ltb_spec i (rd 0 rev i)) as [Hlt|]; [|reflexivity].
  assert (1 <= i) as Hi1.
  { destruct (Z.eq_dec i 0) as [->|]; [rewrite H0 in Hlt|]; lia. }
  assert (forall x, 1 <= x -> rdf re x = F32.zero /\ rdf im x = F32.zero) as Hz.
  { intros x Hx. destruct (Z_lt_le_dec x n) as [Hxn|Hxn].
    - destruct (Hb x ltac:(lia)) as [Hr Him].
      rewrite (proj2 (Z.ltb_ge x 1)) in Hr by lia. split; assumption.
    - unfold rdf. rewrite !rd_outside by lia. split; reflexivity. }
  destruct (Hz i Hi1), (Hz (rd 0 rev i) ltac:(lia)).
  rewrite !swap_zeros by assumption. reflexivity.
Qed.

Lemma impulse_ones_then_zeros (n : Z) :
  0 < n -> ones_then_zeros n 1 (impulse n, constant F32.zero n).
Proof.
  intros Hn. unfold ones_then_zeros, impulse, constant. cbn [fst snd length].
  rewrite !length_replicate. split; [lia|]. split; [lia|].
  intros i Hi. split.
  - destruct (Z.ltb_spec i 1).
    + assert (i = 0) as -> by lia. reflexivity.
    + unfold rdf, rd. destruct (i <? 0) eqn:E; [lia|].
      replace (Z.to_nat i) with (S (Z.to_nat (i - 1))) by lia. cbn [nth].
      rewrite nth_lookup, lookup_replicate_2 by lia. reflexivity.
  - apply rd_replicate. lia.
Qed.

Lemma ones_then_zeros_full (n : Z) (b : bufs) :
  ones_then_zeros n n b -> b = (constant F32.one n, constant F32.zero n).
Proof.
  intros (Hlr & Hli & Hb). destruct b as [re im]. simpl in *. unfold constant.
  f_equal; apply (list_eq_rd F32.zero); rewrite ?length_replicate; try lia.
  - intros i Hi. destruct (Hb i ltac:(lia)) as [Hr _]. unfold rdf in Hr.
    rewrite Hr, (proj2 (Z.ltb_lt i n)), rd_replicate by lia. reflexivity.
  - intros i Hi. destruct (Hb i ltac:(lia)) as [_ Him]. unfold rdf in Him.
    rewrite Him, rd_replicate by lia. reflexivity.
Qed.

Lemma all_finite_rdf (l : list float) :
  (forall i, 0 <= i < Z.of_nat (length l) -> F32.is_finite (rdf l i) = true) ->
  all_finite l.
Proof.
  intros H. apply Forall_lookup. intros i x E.
  pose proof (lookup_lt_Some _ _ _ E) as Hi. specialize (H (Z.of_nat i) ltac:(lia)).
  unfold rdf, rd in H. destruct (Z.of_nat i <? 0) eqn:E0; [lia|].
  rewrite Nat2Z.id, nth_lookup, E in H. exact H.
Qed.

(** The transform of the impulse over any finite twiddle tables and any
    bit-reversal table that maps 0 to 0. *)
Lemma fft_impulse_tables (k : nat) (e : engine) (twr twi : list float) (rev : list Z) :
  (k <= 29)%nat ->
  twiddleReal e = Some twr -> twiddleImag e = Some twi -> bitReversalIndices e = Some rev ->
  all_finite twr -> all_finite twi -> rd 0 rev 0 = 0 ->
  let n := 2 ^ Z.of_nat k in
  fft (Some (impulse n)) (Some (constant F32.zero n)) n e
  = Some (true, Some (constant F32.one n), Some (constant F32.zero n), e).
Proof.
  intros Hk Etr Eti Erev Ftr Fti H0 n.
  pose proof (pow2_pos (Z.of_nat k) ltac:(lia)) as Hp. fold n in Hp.
  pose proof (pow2_le_mono (Z.of_nat k) 30 ltac:(lia)) as Hle. fold n in Hle.
  unfold fft. unfold n at 1. rewrite isPowerOfTwo_pow2 by lia. fold n.
  rewrite Etr, Erev, Eti. cbn [negb].
  rewrite (permute_impulse rev n _ Hp H0 (impulse_ones_then_zeros n Hp)).
  destruct (stages_impulse twr twi n Ftr Fti ltac:(lia) k eq_refl Hk 32 0
              (impulse n, constant F32.zero n)) as (b' & E & Hb').
  - lia.
  - lia.
  - change (2 ^ Z.of_nat 0) with 1. apply impulse_ones_then_zeros, Hp.
  - change (2 ^ Z.of_nat 1) with 2 in E. rewrite E. cbn [mbind option_bind].
    rewrite (ones_then_zeros_full n b' Hb'). reflexivity.
Qed.

(** ** Termination of the butterfly loops *)

Lemma forM_total {S} (idx : list Z) (body : Z -> S -> option S) (s : S) :
  (forall i s, exists s', body i s = Some s') ->
  exists s', forM idx body s = Some s'.
Proof.
  intros Hb. revert s. induction idx as [|i idx IH]; intros s; [eexists; reflexivity|].
  cbn [forM]. destruct (Hb i s) as [s1 ->]. cbn [mbind option_bind]. apply IH.
Qed.

Lemma butterfly_total (twr twi : list float) (half step i j : Z) (b : bufs) :
  exists b', butterfly twr (Some twi) half step i j b = Some b'.
Proof. destruct b as [re im]. unfold butterfly. cbn [mbind option_bind]. eexists; reflexivity. Qed.

(** With a positive stride in the range of the lengths, the loop over the
    blocks ends. *)
Lemma blocks_total (twr twi : list float) (n len half step : Z) :
  0 < len <= 2 ^ 30 -> n <= 2 ^ 30 ->
  forall (fuel : nat) (i : Z) (b : bufs),
    0 <= i -> (Z.to_nat (n - i) < fuel)%nat ->
    exists b', blocks twr (Some twi) n len half step fuel i b = Some b'.
Proof.
  intros Hlen Hn. assert (2 ^ 30 = 1073741824) as P30 by reflexivity.
  induction fuel as [|fuel IH]; intros i b Hi Hf; [lia|].
  cbn [blocks]. destruct (Z.ltb_spec i n); [|eexists; reflexivity].
  destruct (forM_total (seqZ 0 half) (butterfly twr (Some twi) half step i) b) as [b1 ->].
  { intros j s. apply butterfly_total. }
  cbn [mbind option_bind]. unfold Int.add.
  rewrite wrap32_id by (unfold Int.in_range; lia). apply IH; lia.
Qed.

(** Once the stage length has left the range of [int] the stride is
    [-2^31]: the block index alternates between 0 and [-2^31], stays below
    [n], and no amount of fuel ends the loop. *)
Lemma blocks_wrapped (twr : list float) (twi : option (list float)) (n half step : Z) :
  0 < n -> half <= 0 ->
  forall (fuel : nat) (i : Z) (b : bufs),
    i = 0 \/ i = - 2 ^ 31 ->
    blocks twr twi n (- 2 ^ 31) half step fuel i b = None.
Proof.
  intros Hn Hh. induction fuel as [|fuel IH]; intros i b Hi; [reflexivity|].
  cbn [blocks]. rewrite (proj2 (Z.ltb_lt i n)) by (destruct Hi as [->| ->]; lia).
  rewrite forM_seqZ_nil by lia. cbn [mbind option_bind].
  apply IH. destruct Hi as [->| ->]; [right|left]; reflexivity.
Qed.

Lemma shl1_pow2 (t : nat) :
  (t <= 29)%nat -> Int.shl1 (2 ^ Z.of_nat t) = 2 ^ Z.of_nat (S t).
Proof.
  intros Ht. unfold Int.shl1. rewrite Z.shiftl_mul_pow2 by lia. change (2 ^ 1) with 2.
  pose proof (pow2_le_mono (Z.of_nat (S t)) 30 ltac:(lia)).
  pose proof (pow2_pos (Z.of_nat (S t)) ltac:(lia)).
  assert (2 ^ 30 = 1073741824) as P30 by reflexivity.
  rewrite pow2_succ in *. rewrite wrap32_id by (unfold Int.in_range; lia). lia.
Qed.

(** For [n = 2 ^ 30] the stage loop never ends: after the stage of length
    [2 ^ 30], [len <<= 1] is [-2^31]. *)
Lemma stages_overflow (twr twi : list float) (n : Z) :
  n = 2 ^ 30 ->
  forall (m t fuel : nat) (b : bufs),
    (t + m = 29)%nat ->
    stages twr (Some twi) n fuel (2 ^ Z.of_nat (S t)) b = None.
Proof.
  intros Hn. assert (2 ^ 30 = 1073741824) as P30 by reflexivity.
  induction m as [|m IH]; intros t fuel b Ht.
  - assert (t = 29)%nat as -> by lia.
    destruct fuel as [|fuel]; [reflexivity|]. cbn [stages].
    change (2 ^ Z.of_nat 30) with (2 ^ 30). rewrite <- Hn, Z.leb_refl.
    destruct (Z.eqb_spec n 0); [lia|].
    destruct (blocks_total twr twi n n (Z.quot n 2) (Z.quot n n) ltac:(lia) ltac:(lia)
                (S (Z.to_nat n)) 0 b) as [b1 ->]; [lia|lia|].
    cbn [mbind option_bind].
    assert (Int.shl1 n = - 2 ^ 31) as -> by (rewrite Hn; reflexivity).
    destruct fuel as [|fuel]; [reflexivity|]. cbn [stages].
    rewrite (proj2 (Z.leb_le (- 2 ^ 31) n)) by lia.
    change (- 2 ^ 31 =? 0) with false. cbv iota.
    rewrite blocks_wrapped; [reflexivity|lia| |left; reflexivity].
    change (Z.quot (- 2 ^ 31) 2) with (- 2 ^ 30). lia.
  - destruct fuel as [|fuel]; [reflexivity|]. cbn [stages].
    pose proof (pow2_le_mono (Z.of_nat (S t)) 30 ltac:(lia)) as Hle.
    pose proof (pow2_pos (Z.of_nat (S t)) ltac:(lia)) as Hp.
    rewrite (proj2 (Z.leb_le (2 ^ Z.of_nat (S t)) n)) by lia.
    destruct (Z.eqb_spec (2 ^ Z.of_nat (S t)) 0); [lia|].
    destruct (blocks_total twr twi n (2 ^ Z.of_nat (S t)) (Z.quot (2 ^ Z.of_nat (S t)) 2)
                (Z.quot n (2 ^ Z.of_nat (S t))) ltac:(lia) ltac:(lia)
                (S (Z.to_nat n)) 0 b) as [b1 ->]; [lia|lia|].
    cbn [mbind option_bind]. rewrite shl1_pow2 by lia. apply IH. lia.
Qed.

Lemma Some_pair_inj {A} (b : bool) (x y : A) : Some (b, x) = Some (b, y) -> x = y.
Proof. intros E. injection E as ->. reflexivity. Qed.

(** On an engine initialised for [2 ^ 30], [fft] with that length does not
    return. *)
Lemma fft_2pow30_stuck `{LibM} (g1 g2 g3 : bool) (e0 e : engine) (real imag : list float) :
  initFFT g1 g2 g3 (2 ^ 30) e0 = Some (true, e) ->
  fft (Some real) (Some imag) (2 ^ 30) e = None.
Proof.
  intros E. destruct (initFFT_true_inv _ _ _ _ _ _ E) as (_ & -> & -> & ->).
  destruct (initFFT_tables 30 e0 ltac:(lia)) as (tr & ti & E' & _).
  change (2 ^ Z.of_nat 30) with (2 ^ 30) in E'. rewrite E in E'.
  apply Some_pair_inj in E'. subst e. clear E. unfold fft. rewrite (isPowerOfTwo_pow2 30) by lia.
  cbn [negb twiddleReal twiddleImag bitReversalIndices with_tables].
  change 2 with (2 ^ Z.of_nat 1) at 3.
  rewrite (stages_overflow tr ti (2 ^ 30) eq_refl 29 0 32); [reflexivity|lia].
Qed.

(** X15. For every power of two [n] below [2 ^ 30], on an engine that a
    successful [initFFT n] has filled with finite twiddle factors, the
    forward transform of the unit impulse succeeds and leaves [real[i] = 1]
    and [imag[i] = +0] in every cell, bit for bit; for [n = 8] this is the
    scenario [1,0,0,0,0,0,0,0] to [1,1,1,1,1,1,1,1]. *)
Theorem fft_impulse_flat `{LibM} (n : Z) (g1 g2 g3 : bool) (e0 e : engine) :
  initFFT g1 g2 g3 n e0 = Some (true, e) ->
  n < 2 ^ 30 ->
  finite_twiddles n ->
  fft (Some (impulse n)) (Some (constant F32.zero n)) n e
  = Some (true, Some (constant F32.one n), Some (constant F32.zero n), e).
Proof.
  intros E Hn Hfin.
  destruct (initFFT_true_inv _ _ _ _ _ _ E) as (Hpow & -> & -> & ->).
  assert (2 ^ 30 = 1073741824) as P30 by reflexivity.
  destruct (isPowerOfTwo_nat n Hpow ltac:(lia)) as (k & Hk & ->).
  assert (k <= 29)%nat as Hk29.
  { destruct (decide (k <= 29)%nat) as [|Hgt]; [assumption|].
    assert (k = 30)%nat as -> by lia. change (2 ^ Z.of_nat 30) with (2 ^ 30) in Hn. lia. }
  destruct (initFFT_tables k e0 Hk) as (tr & ti & E' & Hlr & Hli & Htw).
  rewrite E in E'. apply Some_pair_inj in E'. subst e.
  pose proof (pow2_pos (Z.of_nat k) ltac:(lia)) as Hp.
  apply (fft_impulse_tables k _ tr ti (rev_bits k <$> seqZ 0 (2 ^ Z.of_nat k)));
    try reflexivity; try assumption.
  - apply all_finite_rdf. intros i Hi. rewrite (proj1 (Htw i ltac:(lia))).
    apply Hfin. lia.
  - apply all_finite_rdf. intros i Hi. rewrite (proj2 (Htw i ltac:(lia))).
    apply Hfin. lia.
  - rewrite rd_fmap_seqZ by lia. apply rev_bits_0.
Qed.

Lemma finite_twiddles_sample_8 : finite_twiddles (L := sample_libm) 8.
Proof.
  intros i Hi. change (8 / 2) with 4 in Hi.
  assert (i = 0 \/ i = 1 \/ i = 2 \/ i = 3) as [->|[->|[->| ->]]] by lia;
    split; vm_compute; reflexivity.
Qed.

Lemma fft_impulse_flat_witness :
  initFFT (L := sample_libm) true true true 8 engine0 = Some (true, engine8)
  /\ 8 < 2 ^ 30
  /\ finite_twiddles (L := sample_libm) 8
  /\ fft (Some [F32.one; F32.zero; F32.zero; F32.zero; F32.zero; F32.zero; F32.zero; F32.zero])
         (Some [F32.zero; F32.zero; F32.zero; F32.zero; F32.zero; F32.zero; F32.zero; F32.zero])
         8 engine8
     = Some (true,
             Some [F32.one; F32.one; F32.one; F32.one; F32.one; F32.one; F32.one; F32.one],
             Some [F32.zero; F32.zero; F32.zero; F32.zero; F32.zero; F32.zero; F32.zero; F32.zero],
             engine8).
Proof.
  split; [vm_compute; reflexivity|]. split; [reflexivity|].
  split; [exact finite_twiddles_sample_8|].
  apply (@fft_impulse_flat sample_libm 8 true true true engine0 engine8).
  - vm_compute; reflexivity.
  - reflexivity.
  - exact finite_twiddles_sample_8.
Defined.

(** C3. The code at [n = 2 ^ 30], the largest power of two of an [int]:
    [isPowerOfTwo] accepts the length, [initFFT] sets the engine up for it,
    and then the transform of the unit impulse does not return, whatever the
    libm.  After the stage [len = 2 ^ 30] the shift [len <<= 1] leaves the
    range of [int]; [len <= n] still holds for the wrapped value, and the
    block loop [i += len] never reaches [n]. *)
Theorem fft_impulse_2pow30_never_returns :
  isPowerOfTwo (2 ^ 30) = true
  /\ (exists e, initFFT (L := sample_libm) true true true (2 ^ 30) engine0 = Some (true, e))
  /\ (forall (L : LibM) g1 g2 g3 e0 e,
        initFFT g1 g2 g3 (2 ^ 30) e0 = Some (true, e) ->
        fft (Some (impulse (2 ^ 30))) (Some (constant F32.zero (2 ^ 30))) (2 ^ 30) e = None).
Proof.
  split; [reflexivity|]. split.
  - destruct (@initFFT_tables sample_libm 30 engine0 ltac:(lia)) as (tr & ti & E & _).
    eexists. exact E.
  - intros L g1 g2 g3 e0 e E. exact (fft_2pow30_stuck g1 g2 g3 e0 e _ _ E).
Qed.

(** ** Guards and frame *)

(** [fft] either refuses the call and hands everything back, or runs the two
    loops on non-null buffers; in both cases the engine is the one it was
    called with. *)
Lemma fft_cases (real imag : buffer) (n : Z) (e : engine) (r : bool) (real' imag' : buffer)
    (e' : engine) :
  fft real imag n e = Some (r, real', imag', e') ->
  e' = e /\ (r = false -> real' = real /\ imag' = imag)
  /\ (r = true -> exists re im, real' = Some re /\ imag' = Some im).
Proof.
  unfold fft. intros E.
  destruct (isPowerOfTwo n); cbn [negb] in E;
    [|injection E as <- <- <- <-; repeat split; (reflexivity || discriminate)].
  destruct real as [re|], imag as [im|], (twiddleReal e) as [twr|],
    (bitReversalIndices e) as [rev|];
    try (injection E as <- <- <- <-; repeat split; (reflexivity || discriminate)).
  destruct (stages _ _ _ _ _ _) as [[re' im']|]; [|discriminate]. cbn in E.
  injection E as <- <- <- <-. split; [reflexivity|]. split; [discriminate|].
  intros _. eexists _, _. split; reflexivity.
Qed.

Lemma fft_null_tables (real imag : buffer) (n : Z) (e : engine) :
  twiddleReal e = None \/ bitReversalIndices e = None ->
  fft real imag n e = Some (false, real, imag, e).
Proof.
  intros H. unfold fft. destruct (isPowerOfTwo n); [|reflexivity]. cbn [negb].
  destruct real, imag, (twiddleReal e), (bitReversalIndices e);
    try reflexivity; destruct H; discriminate.
Qed.

(** C7. While the twiddle table or the bit-reversal table is null, as at
    program start and after [freeFFT], [fft] and [ifft] return [false]; they
    are not stuck on a null table, [fft] hands the buffers back untouched and
    [ifft] the real buffer.  [freeFFT] and [freeCQT] return [true] from every
    state, and running either a second time changes nothing more. *)
Theorem null_state_calls_fail_safely (e : engine) :
  (forall real imag n,
     twiddleReal e = None \/ bitReversalIndices e = None ->
     fft real imag n e = Some (false, real, imag, e)
     /\ exists imag', ifft real imag n e = Some (false, real, imag', e))
  /\ (twiddleReal engine0 = None /\ bitReversalIndices engine0 = None)
  /\ (fst (freeFFT e) = true
      /\ twiddleReal (snd (freeFFT e)) = None
      /\ twiddleImag (snd (freeFFT e)) = None
      /\ bitReversalIndices (snd (freeFFT e)) = None
      /\ freeFFT (snd (freeFFT e)) = freeFFT e)
  /\ (fst (freeCQT e) = true
      /\ cqtKernelReal (snd (freeCQT e)) = []
      /\ cqtKernelImag (snd (freeCQT e)) = []
      /\ freeCQT (snd (freeCQT e)) = freeCQT e).
Proof.
  split; [|repeat split].
  intros real imag n H. split; [apply fft_null_tables, H|].
  unfold ifft. destruct (isPowerOfTwo n); cbn [negb]; [|eexists; reflexivity].
  destruct real as [re|], imag as [im|]; try (eexists; reflexivity).
  rewrite fft_null_tables by exact H. cbn [mbind option_bind]. eexists; reflexivity.
Qed.

(** C10. Whatever [fft], [ifft] and [cqt] return, the engine after the call
    is the engine before it: the twiddle tables, the bit-reversal table and
    the kernel bank are read and never written. *)
Theorem transforms_preserve_engine (e : engine) :
  (forall real imag n r real' imag' e',
     fft real imag n e = Some (r, real', imag', e') -> e' = e)
  /\ (forall real imag n r real' imag' e',
        ifft real imag n e = Some (r, real', imag', e') -> e' = e)
  /\ (forall inputReal inputImag outputReal outputImag n binsPerOctave octaves,
        snd (cqt inputReal inputImag outputReal outputImag n binsPerOctave octaves e) = e).
Proof.
  split; [|split].
  - intros real imag n r real' imag' e' E. exact (proj1 (fft_cases _ _ _ _ _ _ _ _ E)).
  - intros real imag n r real' imag' e'. unfold ifft.
    destruct (isPowerOfTwo n); cbn [negb]; [|intros E; injection E as <- <- <- <-; reflexivity].
    destruct real as [re|], imag as [im|];
      try (intros E; injection E as <- <- <- <-; reflexivity).
    destruct (fft _ _ _ _) as [[[[r1 re1] im1] e1]|] eqn:Ef; [|discriminate].
    destruct (fft_cases _ _ _ _ _ _ _ _ Ef) as (-> & _ & Ht). cbn [mbind option_bind].
    destruct r1.
    + destruct (Ht eq_refl) as (re2 & im2 & -> & ->). cbv beta iota.
      destruct (for_range 0 n _ (re2, im2)) as [re3 im3].
      intros E; injection E as <- <- <- <-; reflexivity.
    + intros E; injection E as <- <- <- <-; reflexivity.
  - intros inR inI outR outI n bpo oct. unfold cqt.
    destruct inR, inI, outR, outI; try reflexivity.
    destruct (_ || _); [reflexivity|].
    destruct (_ <? _); [reflexivity|].
    destruct (for_range _ _ _ _). reflexivity.
Qed.

(** X16. When the [int] product [binsPerOctave * octaves], as [cqt] computes
    it, exceeds the number of kernels in the bank, the call returns [false]
    and hands back both output buffers (and the engine) as it received
    them. *)
Theorem cqt_rejects_oversized_request (inputReal inputImag outputReal outputImag : buffer)
    (n binsPerOctave octaves : Z) (e : engine) :
  Z.of_nat (length (cqtKernelReal e)) < Int.mul binsPerOctave octaves ->
  cqt inputReal inputImag outputReal outputImag n binsPerOctave octaves e
  = (false, outputReal, outputImag, e).
Proof.
  intros H. unfold cqt.
  destruct inputReal, inputImag, outputReal, outputImag; try reflexivity.
  destruct (_ || _); [reflexivity|].
  pose proof (wrap32_range (binsPerOctave * octaves)) as Hr. fold (Int.mul binsPerOctave octaves) in Hr.
  unfold Int.in_range in Hr.
  rewrite wrap32_id by (unfold Int.in_range; lia).
  rewrite (proj2 (Z.ltb_lt _ _) H). reflexivity.
Qed.

Lemma cqt_rejects_oversized_request_witness :
  Z.of_nat (length (cqtKernelReal engine0)) < Int.mul 12 1
  /\ cqt (Some [F32.one; F32.zero]) (Some [F32.zero; F32.zero])
         (Some (constant F32.two 12)) (Some (constant F32.two 12)) 2 12 1 engine0
     = (false, Some (constant F32.two 12), Some (constant F32.two 12), engine0).
Proof.
  split; [reflexivity|].
  apply (cqt_rejects_oversized_request _ _ _ _ 2 12 1 engine0). reflexivity.
Defined.

(** C5. The code at [binsPerOctave = 65536], [octaves = 32768]: the request
    is for [2 ^ 31] bins, more than any bank holds, and an empty bank holds
    none.  The product leaves the range of [int]; with the wrapped value
    [- 2 ^ 31] the size test [totalBins > size] does not fire and the bin
    loop has nothing to do, so the call returns [true] with the output
    buffers as they were, whatever the bank and the buffers. *)
Theorem cqt_accepts_overflowing_request :
  Z.of_nat (length (cqtKernelReal engine0)) < 65536 * 32768
  /\ Int.mul 65536 32768 = - 2 ^ 31
  /\ cqt (Some [F32.one]) (Some [F32.zero]) (Some [F32.two]) (Some [F32.two])
         1 65536 32768 engine0
     = (true, Some [F32.two], Some [F32.two], engine0)
  /\ (forall (inputReal inputImag outputReal outputImag : list float) (n : Z) (e : engine),
        0 < n ->
        cqt (Some inputReal) (Some inputImag) (Some outputReal) (Some outputImag)
            n 65536 32768 e
        = (true, Some outputReal, Some outputImag, e)).
Proof.
  split; [reflexivity|]. split; [reflexivity|].
  assert (forall (inputReal inputImag outputReal outputImag : list float) (n : Z) (e : engine),
            0 < n ->
            cqt (Some inputReal) (Some inputImag) (Some outputReal) (Some outputImag)
                n 65536 32768 e
            = (true, Some outputReal, Some outputImag, e)) as Hall.
  { intros inR inI outR outI n e Hn. unfold cqt.
    change (65536 <=? 0) with false. change (32768 <=? 0) with false.
    rewrite (proj2 (Z.leb_gt n 0)) by lia. cbn [orb].
    change (Int.mul 65536 32768) with (-2147483648).
    pose proof (wrap32_range (Z.of_nat (length (cqtKernelReal e)))) as Hr.
    unfold Int.in_range in Hr. change (2 ^ 31) with 2147483648 in Hr.
    rewrite (proj2 (Z.ltb_ge _ _)) by lia.
    rewrite for_range_nil by lia. reflexivity. }
  split; [|exact Hall]. apply Hall. lia.
Qed.

(** ** Lengths that are not powers of two *)

Lemma fft_not_power_of_two (real imag : buffer) (n : Z) (e : engine) :
  isPowerOfTwo n = false -> fft real imag n e = Some (false, real, imag, e).
Proof. intros H. unfold fft. rewrite H. reflexivity. Qed.

(** With such a length the inner [fft] refuses every kernel, so a round of
    the bin loop either passes the bin over or ends the loop with [false];
    it never writes the bank. *)
Lemma cqt_bin_not_power_of_two `{LibM} (binsPerOctave n : Z) (sampleRate minFreq Q : float)
    (k : Z) (go go' : bool) (e e' : engine) :
  isPowerOfTwo n = false -> Q = quality binsPerOctave ->
  cqt_bin ieee_div binsPerOctave n sampleRate minFreq Q k (go, e) = Some (go', e') ->
  e' = e /\ (go' = true -> go = true /\ bin_skipped binsPerOctave n sampleRate minFreq k).
Proof.
  intros Hn -> E. unfold cqt_bin in E. unfold bin_skipped. cbv zeta.
  destruct go; cbn [negb] in E; [|injection E as <- <-; split; [reflexivity|discriminate]].
  destruct (out_of_band sampleRate _) eqn:Eo.
  { injection E as <- <-. split; [reflexivity|]. intros _. split; [reflexivity|left; reflexivity]. }
  destruct (raw_filter_len _ _ _) as [fl|] eqn:Ef; [|discriminate]. cbn [mbind option_bind] in E.
  destruct (Z.leb_spec (clamp_len n fl) 0) as [Hle|Hgt].
  { injection E as <- <-. split; [reflexivity|]. intros _. split; [reflexivity|].
    right. exists fl. split; [reflexivity|exact Hle]. }
  unfold time_kernel, ieee_div in E. cbn [mbind option_bind] in E.
  destruct (for_range 0 (clamp_len n fl) _ _) as [tempReal tempImag].
  rewrite fft_not_power_of_two in E by exact Hn. cbn [mbind option_bind] in E.
  injection E as <- <-. split; [reflexivity|discriminate].
Qed.

(** C2 (amended). For a length [n] that is not a power of two, [initFFT],
    [fft] and [ifft] return [false] and leave the engine and the buffers as
    they were, and so does [initCQT] when [n <= 0].  For a positive such [n]
    [initCQT] only checks that [n] is positive: it leaves the twiddle and
    bit-reversal tables alone and writes no kernel, but the bank may have been
    resized to the requested number of bins with all-zero kernels, and the
    call returns [true] only when every bin is passed over. *)
Theorem not_power_of_two_rejected `{LibM} (n : Z) (e : engine) :
  isPowerOfTwo n = false ->
  (forall g1 g2 g3, initFFT g1 g2 g3 n e = Some (false, e))
  /\ (forall real imag,
        fft real imag n e = Some (false, real, imag, e)
        /\ ifft real imag n e = Some (false, real, imag, e))
  /\ (forall binsPerOctave octaves sampleRate minFreq,
        n <= 0 -> initCQT binsPerOctave octaves n sampleRate minFreq e = Some (false, e))
  /\ (forall binsPerOctave octaves sampleRate minFreq r e',
        initCQT binsPerOctave octaves n sampleRate minFreq e = Some (r, e') ->
        let totalBins := Int.mul binsPerOctave octaves in
        (e' = e
         \/ e' = with_kernels (resize totalBins (block F32.zero n) (cqtKernelReal e))
                              (resize totalBins (block F32.zero n) (cqtKernelImag e)) e)
        /\ (r = true ->
            forall k, 0 <= k < totalBins -> bin_skipped binsPerOctave n sampleRate minFreq k)).
Proof.
  intros Hn. split; [|split; [|split]].
  - intros g1 g2 g3. unfold initFFT. rewrite Hn. reflexivity.
  - intros real imag. split; [apply fft_not_power_of_two, Hn|].
    unfold ifft. rewrite Hn. reflexivity.
  - intros bpo oct sr mf Hle. unfold initCQT, initCQT_with.
    rewrite (proj2 (Z.leb_le n 0) Hle), !orb_true_r. reflexivity.
  - intros bpo oct sr mf r e' E totalBins. unfold initCQT, initCQT_with in E.
    destruct (_ || _).
    { injection E as <- <-. split; [left; reflexivity|discriminate]. }
    fold totalBins in E. destruct (Z.ltb_spec totalBins 0) as [|Hpos]; [discriminate|].
    set (e1 := with_kernels _ _ e) in E.
    pose proof (forM_post
      (fun m (s : bool * engine) =>
         snd s = e1
         /\ (fst s = true -> forall k, 0 <= k < m -> bin_skipped bpo n sr mf k))
      0 totalBins (cqt_bin ieee_div bpo n sr mf (quality bpo)) (true, e1) (r, e') Hpos)
      as Hpost.
    cbn [fst snd] in Hpost. rewrite Z.add_0_l in Hpost.
    destruct Hpost as [-> Hall]; [split; [reflexivity|intros; lia]| |exact E|].
    + intros i [go e2] [go' e3] Hi [He Hsk] Ei. cbn [fst snd] in *. subst e2.
      destruct (cqt_bin_not_power_of_two _ _ _ _ _ _ _ _ _ _ Hn eq_refl Ei) as [-> Hgo].
      split; [reflexivity|]. intros -> k Hk. destruct (Hgo eq_refl) as [-> Hski].
      destruct (Z.eq_dec k i) as [->|]; [exact Hski|]. apply Hsk; [reflexivity|lia].
    + split; [right; reflexivity|exact Hall].
Qed.

Lemma not_power_of_two_rejected_witness :
  isPowerOfTwo 6 = false
  /\ (forall g1 g2 g3, initFFT (L := sample_libm) g1 g2 g3 6 engine8 = Some (false, engine8))
  /\ (forall real imag,
        fft real imag 6 engine8 = Some (false, real, imag, engine8)
        /\ ifft real imag 6 engine8 = Some (false, real, imag, engine8))
  /\ (forall binsPerOctave octaves sampleRate minFreq,
        6 <= 0 ->
        initCQT (L := sample_libm) binsPerOctave octaves 6 sampleRate minFreq engine8
        = Some (false, engine8))
  /\ (forall binsPerOctave octaves sampleRate minFreq r e',
        initCQT (L := sample_libm) binsPerOctave octaves 6 sampleRate minFreq engine8
        = Some (r, e') ->
        let totalBins := Int.mul binsPerOctave octaves in
        (e' = engine8
         \/ e' = with_kernels (resize totalBins (block F32.zero 6) (cqtKernelReal engine8))
                              (resize totalBins (block F32.zero 6) (cqtKernelImag engine8))
                              engine8)
        /\ (r = true ->
            forall k, 0 <= k < totalBins ->
              bin_skipped (L := sample_libm) binsPerOctave 6 sampleRate minFreq k)).
Proof.
  split; [reflexivity|].
  apply (@not_power_of_two_rejected sample_libm 6 engine8). reflexivity.
Defined.

(** C2 as stated fails for [initCQT]: with the length 3, which is not a power
    of two, a sample rate of 4 and a lowest frequency of 2, the only bin lies
    at the Nyquist frequency and is passed over, so the call returns [true],
    and the kernel bank, empty before, holds one kernel of three zeros. *)
Lemma initCQT_length_3_counterexample :
  isPowerOfTwo 3 = false
  /\ initCQT (L := sample_libm) 1 1 3 (F32.of_Z 4) (F32.of_Z 2) engine0
     = Some (true, with_kernels [[F32.zero; F32.zero; F32.zero]]
                                [[F32.zero; F32.zero; F32.zero]] engine0)
  /\ with_kernels [[F32.zero; F32.zero; F32.zero]] [[F32.zero; F32.zero; F32.zero]] engine0
     <> engine0.
Proof.
  split; [reflexivity|]. split; [vm_compute; reflexivity|]. discriminate.
Qed.

(** ** The kernel bank *)

Lemma length_store_kernel (n k : Z) (temp : list float) (bank : list (list float)) :
  length (store_kernel n k temp bank) = length bank.
Proof.
  unfold store_kernel. destruct (Z_le_gt_dec 0 n) as [Hn|Hn].
  - apply (for_range_inv (fun _ b => length b = length bank)); [exact Hn|reflexivity|].
    intros i b _ Hb. unfold wr2. rewrite length_wr. exact Hb.
  - rewrite for_range_nil by lia. reflexivity.
Qed.

Lemma store_kernel_other (n k k' : Z) (temp : list float) (bank : list (list float)) :
  k' <> k -> rd [] (store_kernel n k temp bank) k' = rd [] bank k'.
Proof.
  intros Hk. unfold store_kernel. destruct (Z_le_gt_dec 0 n) as [Hn|Hn].
  - apply (for_range_inv (fun _ b => rd [] b k' = rd [] bank k')); [exact Hn|reflexivity|].
    intros i b _ Hb. unfold wr2. rewrite rd_wr_ne by lia. exact Hb.
  - rewrite for_range_nil by lia. reflexivity.
Qed.

Ltac frame_done :=
  repeat split; intros; first [reflexivity | discriminate | congruence].

(** A round of the bin loop, with either division: a bin that is out of band
    changes nothing and lets the loop go on; any bin leaves the tables and
    the kernels of the other bins as they are. *)
Lemma cqt_bin_frame `{LibM} (dv : float -> float -> option float)
    (binsPerOctave n : Z) (sampleRate minFreq Q : float) (k : Z) (go go' : bool)
    (e e' : engine) :
  cqt_bin dv binsPerOctave n sampleRate minFreq Q k (go, e) = Some (go', e') ->
  (out_of_band sampleRate (bin_freq binsPerOctave minFreq k) = true -> go' = go /\ e' = e)
  /\ (go = false -> go' = false)
  /\ length (cqtKernelReal e') = length (cqtKernelReal e)
  /\ length (cqtKernelImag e') = length (cqtKernelImag e)
  /\ forall k', k' <> k ->
       rd [] (cqtKernelReal e') k' = rd [] (cqtKernelReal e) k'
       /\ rd [] (cqtKernelImag e') k' = rd [] (cqtKernelImag e) k'.
Proof.
  intros E. unfold cqt_bin in E.
  destruct go; cbn [negb] in E;
    [|injection E as <- <-; frame_done].
  destruct (out_of_band sampleRate _) eqn:Eo.
  { injection E as <- <-. frame_done. }
  split; [discriminate|]. split; [discriminate|].
  destruct (raw_filter_len _ _ _) as [fl|]; [|discriminate]. cbn [mbind option_bind] in E.
  destruct (clamp_len n fl <=? 0).
  { injection E as <- <-. frame_done. }
  destruct (time_kernel _ _ _ _ _) as [[tempReal tempImag]|]; [|discriminate].
  cbn [mbind option_bind] in E.
  destruct (fft _ _ _ _) as [[[[r re1] im1] e1]|] eqn:Ef; [|discriminate].
  destruct (fft_cases _ _ _ _ _ _ _ _ Ef) as (-> & _ & Ht). cbn [mbind option_bind] in E.
  destruct r.
  - destruct (Ht eq_refl) as (re2 & im2 & -> & ->). injection E as <- <-.
    cbn [cqtKernelReal cqtKernelImag with_kernels]. rewrite !length_store_kernel.
    repeat split; try reflexivity; apply store_kernel_other; assumption.
  - assert (go' = false /\ e' = e) as [-> ->].
    { destruct re1, im1; injection E as <- <-; split; reflexivity. }
    frame_done.
Qed.

Lemma rd_resize_empty (count : Z) (row : list float) (k : Z) :
  0 <= k < count -> rd [] (resize count row []) k = row.
Proof.
  intros Hk. unfold resize. rewrite take_nil. cbn [app length].
  apply rd_replicate. lia.
Qed.

(** C6. For every call of [initCQT] that starts from an empty kernel bank
    and returns [true], every bin whose frequency
    [minFreq * powf(2, k / binsPerOctave)], as the function computes it, is
    [<= 0] or [>= sampleRate / 2] ends with a kernel of [n] zeros in both the
    real and the imaginary bank; the round of such a bin changes nothing and
    lets the loop go on. *)
Theorem out_of_band_bins_stay_zero `{LibM} (binsPerOctave octaves n : Z)
    (sampleRate minFreq : float) (e e' : engine) (k : Z) :
  initCQT binsPerOctave octaves n sampleRate minFreq e = Some (true, e') ->
  cqtKernelReal e = [] -> cqtKernelImag e = [] ->
  0 <= k < Int.mul binsPerOctave octaves ->
  out_of_band sampleRate (bin_freq binsPerOctave minFreq k) = true ->
  rd [] (cqtKernelReal e') k = constant F32.zero n
  /\ rd [] (cqtKernelImag e') k = constant F32.zero n
  /\ forall go e1,
       cqt_bin ieee_div binsPerOctave n sampleRate minFreq (quality binsPerOctave) k (go, e1)
       = Some (go, e1).
Proof.
  intros E Hkr Hki Hk Hout.
  assert (forall go e1,
            cqt_bin ieee_div binsPerOctave n sampleRate minFreq (quality binsPerOctave) k (go, e1)
            = Some (go, e1)) as Hround.
  { intros go e1. unfold cqt_bin. destruct go; [|reflexivity]. cbn [negb].
    rewrite Hout. reflexivity. }
  enough (rd [] (cqtKernelReal e') k = constant F32.zero n
          /\ rd [] (cqtKernelImag e') k = constant F32.zero n) as [Hr Hi]
    by (split; [exact Hr|split; [exact Hi|exact Hround]]).
  unfold initCQT, initCQT_with in E.
  destruct (_ || _); [discriminate|].
  set (totalBins := Int.mul binsPerOctave octaves) in *.
  destruct (Z.ltb_spec totalBins 0) as [|Hpos]; [discriminate|].
  rewrite Hkr, Hki in E. set (e1 := with_kernels _ _ e) in E.
  apply (forM_post
      (fun m (s : bool * engine) =>
         forall j, 0 <= j < totalBins ->
           m <= j \/ out_of_band sampleRate (bin_freq binsPerOctave minFreq j) = true ->
           rd [] (cqtKernelReal (snd s)) j = constant F32.zero n
           /\ rd [] (cqtKernelImag (snd s)) j = constant F32.zero n)
      0 totalBins
      (cqt_bin ieee_div binsPerOctave n sampleRate minFreq (quality binsPerOctave))
      (true, e1) (true, e') Hpos); [| |exact E|exact Hk|right; exact Hout].
  - intros j Hj _. unfold e1. cbn [snd cqtKernelReal cqtKernelImag with_kernels].
    rewrite !rd_resize_empty by lia. split; reflexivity.
  - intros i [go e2] [go' e3] Hi Hinv Ei j Hj Hcase. cbn [fst snd] in *.
    destruct (cqt_bin_frame _ _ _ _ _ _ _ _ _ _ _ Ei) as (Hskip & _ & _ & _ & Hother).
    destruct (Z.eq_dec j i) as [->|Hne].
    + destruct Hcase as [Hc|Hc]; [lia|].
      destruct (Hskip Hc) as [_ ->]. apply Hinv; [lia|right; exact Hc].
    + destruct (Hother j Hne) as [-> ->]. apply Hinv; [lia|].
      destruct Hcase as [Hc|Hc]; [left; lia|right; exact Hc].
Qed.

Lemma out_of_band_bins_stay_zero_witness :
  initCQT (L := sample_libm) 1 2 2 (F32.of_Z 8) (F32.of_Z 2) engine2 = Some (true, engine2_cqt)
  /\ cqtKernelReal engine2 = [] /\ cqtKernelImag engine2 = []
  /\ 0 <= 1 < Int.mul 1 2
  /\ out_of_band (F32.of_Z 8) (bin_freq (L := sample_libm) 1 (F32.of_Z 2) 1) = true
  /\ rd [] (cqtKernelReal engine2_cqt) 1 = constant F32.zero 2
  /\ rd [] (cqtKernelImag engine2_cqt) 1 = constant F32.zero 2
  /\ forall go e1,
       cqt_bin (L := sample_libm) ieee_div 1 2 (F32.of_Z 8) (F32.of_Z 2)
         (quality (L := sample_libm) 1) 1 (go, e1)
       = Some (go, e1).
Proof.
  split; [vm_compute; reflexivity|]. split; [reflexivity|]. split; [reflexivity|].
  split; [change (Int.mul 1 2) with 2; lia|]. split; [vm_compute; reflexivity|].
  apply (@out_of_band_bins_stay_zero sample_libm 1 2 2 (F32.of_Z 8) (F32.of_Z 2)
           engine2 engine2_cqt 1).
  - vm_compute; reflexivity.
  - reflexivity.
  - reflexivity.
  - change (Int.mul 1 2) with 2; lia.
  - vm_compute; reflexivity.
Defined.

(** ** cqt: the per-bin sums *)

(** A counted loop that reads cell [i] of a list in round [i] is a fold over
    the list; [R] relates the two accumulators. *)
Lemma for_range_foldl {S T A} (R : S -> T -> Prop) (l : list A)
    (f : Z -> S -> S) (h : T -> A -> T) (s0 : S) (t0 : T) :
  R s0 t0 ->
  (forall i x s t, l !! i = Some x -> R s t -> R (f (Z.of_nat i) s) (h t x)) ->
  R (for_range 0 (Z.of_nat (length l)) f s0) (foldl h t0 l).
Proof.
  intros H0 Hstep. induction l as [|x l IH] using rev_ind; [exact H0|].
  rewrite length_app, foldl_app. cbn [length foldl].
  unfold for_range. rewrite Z.sub_0_r, Nat.add_1_r, seqZ_S, foldl_app. cbn [foldl].
  rewrite Z.add_0_l. apply (Hstep (length l) x).
  - apply list_lookup_middle. reflexivity.
  - unfold for_range in IH. rewrite Z.sub_0_r in IH. apply IH.
    intros i y s t Hi. apply Hstep. rewrite lookup_app_l by (eapply lookup_lt_Some, Hi).
    exact Hi.
Qed.

Lemma rdf_lookup (l : list float) (i : nat) (x : float) :
  l !! i = Some x -> rdf l (Z.of_nat i) = x.
Proof.
  intros E. unfold rdf, rd. destruct (Z.ltb_spec (Z.of_nat i) 0); [lia|].
  rewrite Nat2Z.id, nth_lookup, E. reflexivity.
Qed.

(** The two running sums of [cqt] for one bin are the real and imaginary
    parts of the complex dot product of the input with the kernel, the kernel
    not conjugated. *)
Lemma cqt_sums_dot (inputReal inputImag kernelReal kernelImag : list float) (n : Z) :
  Z.of_nat (length inputReal) = n -> Z.of_nat (length inputImag) = n ->
  Z.of_nat (length kernelReal) = n -> Z.of_nat (length kernelImag) = n ->
  let z := Cx.dot (Cx.of_lists inputReal inputImag) (Cx.of_lists kernelReal kernelImag) in
  cqt_sums inputReal inputImag kernelReal kernelImag n = (Cx.re z, Cx.im z).
Proof.
  intros H1 H2 H3 H4 z. unfold cqt_sums.
  set (l := zip (Cx.of_lists inputReal inputImag) (Cx.of_lists kernelReal kernelImag)).
  assert (Z.of_nat (length l) = n) as Hl.
  { unfold l, Cx.of_lists. rewrite length_zip_with, !length_zip_with. lia. }
  rewrite <- Hl.
  apply (for_range_foldl (fun (s : float * float) (t : Cx.complex) => s = (Cx.re t, Cx.im t)) l);
    [reflexivity|].
  intros i [x k] [sr si] t Hi Hs. injection Hs as -> ->.
  unfold l, Cx.of_lists in Hi.
  apply lookup_zip_with_Some in Hi as (x' & k' & Hp & Hx & Hk).
  injection Hp as <- <-.
  apply lookup_zip_with_Some in Hx as (a & b & -> & Ha & Hb).
  apply lookup_zip_with_Some in Hk as (c & d & -> & Hc & Hd).
  rewrite (rdf_lookup _ _ _ Ha), (rdf_lookup _ _ _ Hb), (rdf_lookup _ _ _ Hc),
    (rdf_lookup _ _ _ Hd).
  reflexivity.
Qed.

(** C8 (amended). For every successful call of [cqt] on inputs and kernels
    of [n] cells and output buffers that hold the requested bins, the output
    at each bin [k] is the complex sum of [input[i] * kernel[k][i]] over [i],
    the kernel taken as stored and not conjugated, accumulated in [float] from
    index 0 upwards and multiplied by [1.0f / n]; its real part is written to
    [outputReal[k]] and its imaginary part to [outputImag[k]]. *)
Theorem cqt_output_is_scaled_product_sum (inputReal inputImag outputReal outputImag : list float)
    (n binsPerOctave octaves : Z) (e e' : engine) (outputReal' outputImag' : buffer) (k : Z) :
  cqt (Some inputReal) (Some inputImag) (Some outputReal) (Some outputImag)
      n binsPerOctave octaves e
  = (true, outputReal', outputImag', e') ->
  Z.of_nat (length inputReal) = n -> Z.of_nat (length inputImag) = n ->
  Int.mul binsPerOctave octaves <= Z.of_nat (length outputReal) ->
  Int.mul binsPerOctave octaves <= Z.of_nat (length outputImag) ->
  0 <= k < Int.mul binsPerOctave octaves ->
  Z.of_nat (length (rd [] (cqtKernelReal e) k)) = n ->
  Z.of_nat (length (rd [] (cqtKernelImag e) k)) = n ->
  let z := Cx.scale (F32.div F32.one (F32.of_Z n))
             (Cx.dot (Cx.of_lists inputReal inputImag)
                     (Cx.of_lists (rd [] (cqtKernelReal e) k) (rd [] (cqtKernelImag e) k))) in
  exists outR outI,
    outputReal' = Some outR /\ outputImag' = Some outI
    /\ rdf outR k = Cx.re z /\ rdf outI k = Cx.im z.
Proof.
  intros E H1 H2 Ho1 Ho2 Hk Hk1 Hk2 z. unfold cqt in E.
  destruct (_ || _); [discriminate|].
  set (totalBins := Int.mul binsPerOctave octaves) in *.
  destruct (_ <? totalBins); [discriminate|].
  set (invN := F32.div F32.one (F32.of_Z n)) in *.
  set (F := fun k => cqt_sums inputReal inputImag (rd [] (cqtKernelReal e) k)
                       (rd [] (cqtKernelImag e) k) n).
  assert (forall f,
    f = (fun k '(outR, outI) =>
           let '(sumReal, sumImag) := F k in
           (wr outR k (F32.mul sumReal invN), wr outI k (F32.mul sumImag invN))) ->
    forall j, 0 <= j < totalBins ->
      rdf (fst (for_range 0 totalBins f (outputReal, outputImag))) j = F32.mul (fst (F j)) invN
      /\ rdf (snd (for_range 0 totalBins f (outputReal, outputImag))) j
         = F32.mul (snd (F j)) invN) as Hloop.
  { intros f ->.
    apply (for_range_inv
      (fun m (o : list float * list float) =>
         length (fst o) = length outputReal /\ length (snd o) = length outputImag
         /\ forall j, 0 <= j < m ->
              rdf (fst o) j = F32.mul (fst (F j)) invN
              /\ rdf (snd o) j = F32.mul (snd (F j)) invN)); [lia| |].
    - repeat split; intros; lia.
    - intros i [oR oI] Hi (Hl1 & Hl2 & Hprev). cbn [fst snd] in *.
      destruct (F i) as [sumReal sumImag] eqn:EF. cbn [fst snd].
      rewrite !length_wr. split; [exact Hl1|]. split; [exact Hl2|].
      intros j Hj. unfold rdf. destruct (Z.eq_dec j i) as [->|Hne].
      + rewrite !rd_wr_eq by lia. rewrite EF. split; reflexivity.
      + rewrite !rd_wr_ne by lia. apply Hprev. lia. }
  specialize (Hloop _ eq_refl k Hk).
  destruct (for_range 0 totalBins _ (outputReal, outputImag)) as [outR outI].
  cbn [fst snd] in Hloop. destruct Hloop as [Hr Hi].
  injection E as <- <- <-. exists outR, outI. split; [reflexivity|]. split; [reflexivity|].
  rewrite Hr, Hi. unfold F.
  rewrite (cqt_sums_dot _ _ _ _ n H1 H2 Hk1 Hk2). split; reflexivity.
Qed.

Lemma cqt_output_is_scaled_product_sum_witness :
  cqt (Some [F32.zero]) (Some [F32.one]) (Some [F32.two]) (Some [F32.two]) 1 1 1 unit_bank
  = (true, Some [F32.neg F32.one], Some [F32.zero], unit_bank)
  /\ Z.of_nat (length [F32.zero]) = 1 /\ Z.of_nat (length [F32.one]) = 1
  /\ Int.mul 1 1 <= Z.of_nat (length [F32.two])
  /\ 0 <= 0 < Int.mul 1 1
  /\ Z.of_nat (length (rd [] (cqtKernelReal unit_bank) 0)) = 1
  /\ Z.of_nat (length (rd [] (cqtKernelImag unit_bank) 0)) = 1
  /\ exists outR outI,
       Some [F32.neg F32.one] = Some outR /\ Some [F32.zero] = Some outI
       /\ rdf outR 0
          = Cx.re (Cx.scale (F32.div F32.one (F32.of_Z 1))
                     (Cx.dot (Cx.of_lists [F32.zero] [F32.one])
                        (Cx.of_lists (rd [] (cqtKernelReal unit_bank) 0)
                                     (rd [] (cqtKernelImag unit_bank) 0))))
       /\ rdf outI 0
          = Cx.im (Cx.scale (F32.div F32.one (F32.of_Z 1))
                     (Cx.dot (Cx.of_lists [F32.zero] [F32.one])
                        (Cx.of_lists (rd [] (cqtKernelReal unit_bank) 0)
                                     (rd [] (cqtKernelImag unit_bank) 0)))).
Proof.
  split; [vm_compute; reflexivity|]. split; [reflexivity|]. split; [reflexivity|].
  split; [change (Int.mul 1 1) with 1; simpl; lia|].
  split; [change (Int.mul 1 1) with 1; lia|].
  split; [reflexivity|]. split; [reflexivity|].
  apply (cqt_output_is_scaled_product_sum [F32.zero] [F32.one] [F32.two] [F32.two]
           1 1 1 unit_bank unit_bank (Some [F32.neg F32.one]) (Some [F32.zero]) 0).
  - vm_compute; reflexivity.
  - reflexivity.
  - reflexivity.
  - change (Int.mul 1 1) with 1; simpl; lia.
  - change (Int.mul 1 1) with 1; simpl; lia.
  - change (Int.mul 1 1) with 1; lia.
  - reflexivity.
  - reflexivity.
Defined.

(** C8 as stated fails: for the input [i] against the one-cell kernel [i],
    [cqt] writes [i * i = -1], while the sum of [input * conj(kernel)] scaled
    by [1 / n] is [i * (-i) = 1]. *)
Lemma cqt_conjugate_counterexample :
  cqt (Some [F32.zero]) (Some [F32.one]) (Some [F32.two]) (Some [F32.two]) 1 1 1 unit_bank
  = (true, Some [F32.neg F32.one], Some [F32.zero], unit_bank)
  /\ Cx.scale (F32.div F32.one (F32.of_Z 1))
       (Cx.dot_conj (Cx.of_lists [F32.zero] [F32.one])
          (Cx.of_lists (rd [] (cqtKernelReal unit_bank) 0) (rd [] (cqtKernelImag unit_bank) 0)))
     = Cx.C F32.one F32.zero
  /\ F32.eqb (F32.neg F32.one) F32.one = false.
Proof. repeat split; vm_compute; reflexivity. Qed.

(** ** The window division *)

Lemma guarded_div_cases (x y : float) :
  guarded_div x y = None \/ guarded_div x y = ieee_div x y.
Proof. unfold guarded_div. destruct (F32.is_zero y); [left|right]; reflexivity. Qed.

(** The guarded run of a round is the IEEE run, unless the guard fires. *)
Lemma cqt_bin_guarded_cases `{LibM} (binsPerOctave n : Z) (sampleRate minFreq Q : float)
    (k : Z) (s : bool * engine) :
  cqt_bin guarded_div binsPerOctave n sampleRate minFreq Q k s = None
  \/ cqt_bin guarded_div binsPerOctave n sampleRate minFreq Q k s
     = cqt_bin ieee_div binsPerOctave n sampleRate minFreq Q k s.
Proof.
  destruct s as [go e]. unfold cqt_bin.
  destruct (negb go); [right; reflexivity|].
  destruct (out_of_band _ _); [right; reflexivity|].
  destruct (raw_filter_len _ _ _) as [fl|]; [|left; reflexivity]. cbn [mbind option_bind].
  destruct (clamp_len n fl <=? 0); [right; reflexivity|].
  unfold time_kernel.
  destruct (guarded_div_cases F32.one (F32.of_Z (clamp_len n fl - 1))) as [-> | ->];
    [left|right]; reflexivity.
Qed.

(** A round on a bin in band with clamped filter length 1 divides by zero. *)
Lemma cqt_bin_guard_fires `{LibM} (binsPerOctave n : Z) (sampleRate minFreq Q : float)
    (k fl : Z) (e : engine) :
  out_of_band sampleRate (bin_freq binsPerOctave minFreq k) = false ->
  raw_filter_len Q sampleRate (bin_freq binsPerOctave minFreq k) = Some fl ->
  clamp_len n fl = 1 ->
  cqt_bin guarded_div binsPerOctave n sampleRate minFreq Q k (true, e) = None.
Proof.
  intros Ho Hf Hc. unfold cqt_bin. cbn [negb]. rewrite Ho, Hf. cbn [mbind option_bind].
  rewrite Hc. reflexivity.
Qed.

Lemma forM_cqt_bin_stopped `{LibM} (dv : float -> float -> option float)
    (binsPerOctave n : Z) (sampleRate minFreq Q : float) (idx : list Z) (e : engine) :
  forM idx (cqt_bin dv binsPerOctave n sampleRate minFreq Q) (false, e) = Some (false, e).
Proof. induction idx as [|i idx IH]; [reflexivity|]. cbn [forM cqt_bin negb mbind option_bind]. exact IH. Qed.

(** When the IEEE run of the bin loop gets through with [true] and one of
    the bins divides by zero, the guarded run stops at the guard. *)
Lemma forM_cqt_bin_guard_fires `{LibM} (binsPerOctave n : Z) (sampleRate minFreq Q : float)
    (k fl : Z) (idx : list Z) :
  out_of_band sampleRate (bin_freq binsPerOctave minFreq k) = false ->
  raw_filter_len Q sampleRate (bin_freq binsPerOctave minFreq k) = Some fl ->
  clamp_len n fl = 1 ->
  k ∈ idx ->
  forall e e',
    forM idx (cqt_bin ieee_div binsPerOctave n sampleRate minFreq Q) (true, e) = Some (true, e') ->
    forM idx (cqt_bin guarded_div binsPerOctave n sampleRate minFreq Q) (true, e) = None.
Proof.
  intros Ho Hf Hc. induction idx as [|i idx IH]; intros Hin e e' E.
  - apply elem_of_nil in Hin. contradiction.
  - cbn [forM] in *.
    destruct (cqt_bin_guarded_cases binsPerOctave n sampleRate minFreq Q i (true, e))
      as [Hg|Hg]; rewrite Hg; [reflexivity|].
    destruct (cqt_bin ieee_div _ _ _ _ _ i (true, e)) as [[go e1]|] eqn:Ei; [|discriminate].
    cbn [mbind option_bind] in *.
    destruct go; [|rewrite forM_cqt_bin_stopped in E; discriminate].
    apply elem_of_cons in Hin as [->|Hin]; [|exact (IH Hin e1 e' E)].
    rewrite (cqt_bin_guard_fires _ _ _ _ _ _ _ e Ho Hf Hc) in Hg. discriminate.
Qed.

Lemma clamp_len_one (n fl : Z) :
  0 < n -> (clamp_len n fl = 1 <-> fl = 1 \/ (n = 1 /\ 1 <= fl)).
Proof. intros Hn. unfold clamp_len. destruct (Z.ltb_spec n fl); lia. Qed.

(** C9. In a call of [initCQT] that gets through all bins, a bin in band
    whose clamped filter length is 1 (the raw length is 1, or [n = 1] and the
    raw length is positive) has the divisor [filterLen - 1 = 0] in
    [1.0f / (filterLen - 1)]: the IEEE division answers [+infinity], and with
    the division that refuses a zero divisor the kernel construction of that
    bin, and with it the whole call, stops at the guard.  The witness below
    reaches it with positive arguments. *)
Theorem window_divisor_zero_reachable `{LibM} (binsPerOctave octaves n : Z)
    (sampleRate minFreq : float) (e e' : engine) (k filterLen : Z) :
  initCQT binsPerOctave octaves n sampleRate minFreq e = Some (true, e') ->
  0 <= k < Int.mul binsPerOctave octaves ->
  out_of_band sampleRate (bin_freq binsPerOctave minFreq k) = false ->
  raw_filter_len (quality binsPerOctave) sampleRate (bin_freq binsPerOctave minFreq k)
  = Some filterLen ->
  clamp_len n filterLen = 1 ->
  (filterLen = 1 \/ (n = 1 /\ 1 <= filterLen))
  /\ F32.is_zero (F32.of_Z (clamp_len n filterLen - 1)) = true
  /\ ieee_div F32.one (F32.of_Z (clamp_len n filterLen - 1)) = Some (S754_infinity false)
  /\ time_kernel guarded_div n (clamp_len n filterLen) sampleRate
       (bin_freq binsPerOctave minFreq k) = None
  /\ initCQT_guarded binsPerOctave octaves n sampleRate minFreq e = None.
Proof.
  intros E Hk Ho Hf Hc. unfold initCQT, initCQT_guarded, initCQT_with in *.
  destruct (_ || _) eqn:Eg; [discriminate|].
  assert (0 < n) as Hn.
  { apply orb_false_elim in Eg as [Eg _]. apply orb_false_elim in Eg as [Eg _].
    apply orb_false_elim in Eg as [_ Eg]. apply Z.leb_gt in Eg. exact Eg. }
  split; [apply clamp_len_one; assumption|].
  rewrite Hc. split; [reflexivity|]. split; [reflexivity|]. split; [reflexivity|].
  set (totalBins := Int.mul binsPerOctave octaves) in *.
  destruct (totalBins <? 0); [discriminate|].
  apply (forM_cqt_bin_guard_fires _ _ _ _ _ k filterLen _ Ho Hf Hc) with (e' := e');
    [|exact E].
  apply elem_of_seqZ. lia.
Qed.

Lemma window_divisor_zero_reachable_witness :
  initCQT (L := sample_libm) 1 1 1 (F32.of_Z 8) (F32.of_Z 1) engine1 = Some (true, engine1_cqt)
  /\ 0 <= 0 < Int.mul 1 1
  /\ out_of_band (F32.of_Z 8) (bin_freq (L := sample_libm) 1 (F32.of_Z 1) 0) = false
  /\ raw_filter_len (quality (L := sample_libm) 1) (F32.of_Z 8)
       (bin_freq (L := sample_libm) 1 (F32.of_Z 1) 0) = Some 8
  /\ clamp_len 1 8 = 1
  /\ (8 = 1 \/ (1 = 1 /\ 1 <= 8))
  /\ F32.is_zero (F32.of_Z (clamp_len 1 8 - 1)) = true
  /\ ieee_div F32.one (F32.of_Z (clamp_len 1 8 - 1)) = Some (S754_infinity false)
  /\ time_kernel (L := sample_libm) guarded_div 1 (clamp_len 1 8) (F32.of_Z 8)
       (bin_freq (L := sample_libm) 1 (F32.of_Z 1) 0) = None
  /\ initCQT_guarded (L := sample_libm) 1 1 1 (F32.of_Z 8) (F32.of_Z 1) engine1 = None.
Proof.
  split; [vm_compute; reflexivity|]. split; [change (Int.mul 1 1) with 1; lia|].
  split; [vm_compute; reflexivity|]. split; [vm_compute; reflexivity|].
  split; [reflexivity|].
  apply (@window_divisor_zero_reachable sample_libm 1 1 1 (F32.of_Z 8) (F32.of_Z 1)
           engine1 engine1_cqt 0 8).
  - vm_compute; reflexivity.
  - change (Int.mul 1 1) with 1; lia.
  - vm_compute; reflexivity.
  - vm_compute; reflexivity.
  - reflexivity.
Defined.

(** * Further properties of the code *)

(** ** isPowerOfTwo and initFFT *)

(** X1. [isPowerOfTwo] holds exactly of the powers of two, 1 included. *)
Theorem isPowerOfTwo_iff (n : Z) :
  isPowerOfTwo n = true <-> exists k, 0 <= k /\ n = 2 ^ k.
Proof.
  split; [apply isPowerOfTwo_inv|].
  intros (k & Hk & ->). apply isPowerOfTwo_pow2, Hk.
Qed.

(** X2. For a length in the range of [int], [initFFT] always returns, and it
    returns [true] exactly when the length is a power of two and the three
    allocations succeed.  It then leaves twiddle tables of [n / 2] entries
    [cosf(angle i)] and [sinf(angle i)] with [angle i] the [float] nearest to
    [-2 pi i / n] computed in [double], a bit-reversal table of [n] entries,
    and the kernel bank as it was. *)
Theorem initFFT_outcome `{LibM} (g1 g2 g3 : bool) (n : Z) (e : engine) :
  n < 2 ^ 31 ->
  exists r e',
    initFFT g1 g2 g3 n e = Some (r, e')
    /\ (r = true <-> isPowerOfTwo n = true /\ g1 = true /\ g2 = true /\ g3 = true)
    /\ (r = true ->
        exists tr ti rev,
          twiddleReal e' = Some tr /\ twiddleImag e' = Some ti
          /\ bitReversalIndices e' = Some rev
          /\ Z.of_nat (length tr) = n / 2 /\ Z.of_nat (length ti) = n / 2
          /\ Z.of_nat (length rev) = n
          /\ (forall i, 0 <= i < n / 2 ->
                rdf tr i = cosf (twiddle_angle i n) /\ rdf ti i = sinf (twiddle_angle i n))
          /\ cqtKernelReal e' = cqtKernelReal e /\ cqtKernelImag e' = cqtKernelImag e).
Proof.
  intros Hn. destruct (isPowerOfTwo n) eqn:Hpow.
  - destruct (isPowerOfTwo_nat n Hpow Hn) as (k & Hk & ->).
    destruct g1, g2, g3;
      try (unfold initFFT; rewrite Hpow; cbn [negb orb];
           try destruct (fill_twiddles _ _) as [tr ti];
           eexists false, _; split; [reflexivity|];
           split; [split; [discriminate|intros (_ & ? & ? & ?); discriminate]|discriminate]).
    destruct (initFFT_tables k e Hk) as (tr & ti & E & Hlr & Hli & Htw).
    eexists true, _. split; [exact E|]. split; [split; intros; repeat split|].
    intros _. exists tr, ti, (rev_bits k <$> seqZ 0 (2 ^ Z.of_nat k)).
    pose proof (pow2_pos (Z.of_nat k) ltac:(lia)).
    repeat split; try assumption; try apply Htw; try assumption.
    rewrite length_fmap, length_seqZ. lia.
  - unfold initFFT. rewrite Hpow. cbn [negb]. eexists false, e. split; [reflexivity|].
    split; [split; [discriminate|intros (? & _); discriminate]|discriminate].
Qed.

Lemma initFFT_outcome_witness :
  8 < 2 ^ 31
  /\ exists r e',
       initFFT (L := sample_libm) true true true 8 engine0 = Some (r, e')
       /\ (r = true <-> isPowerOfTwo 8 = true /\ true = true /\ true = true /\ true = true)
       /\ (r = true ->
           exists tr ti rev,
             twiddleReal e' = Some tr /\ twiddleImag e' = Some ti
             /\ bitReversalIndices e' = Some rev
             /\ Z.of_nat (length tr) = 8 / 2 /\ Z.of_nat (length ti) = 8 / 2
             /\ Z.of_nat (length rev) = 8
             /\ (forall i, 0 <= i < 8 / 2 ->
                   rdf tr i = cosf (LibM := sample_libm) (twiddle_angle i 8)
                   /\ rdf ti i = sinf (LibM := sample_libm) (twiddle_angle i 8))
             /\ cqtKernelReal e' = cqtKernelReal engine0
             /\ cqtKernelImag e' = cqtKernelImag engine0).
Proof.
  split; [reflexivity|].
  apply (@initFFT_outcome sample_libm true true true 8 engine0). reflexivity.
Defined.

(** X3. When an allocation fails on a power of two, [initFFT] returns [false]
    with both twiddle tables null, so every later [fft] is refused; the
    bit-reversal table is null as well when it was its allocation that
    failed, and the old one otherwise. *)
Theorem initFFT_allocation_failure `{LibM} (g1 g2 g3 : bool) (n : Z) (e : engine) :
  isPowerOfTwo n = true ->
  g1 && g2 && g3 = false ->
  exists e',
    initFFT g1 g2 g3 n e = Some (false, e')
    /\ twiddleReal e' = None /\ twiddleImag e' = None
    /\ bitReversalIndices e' = (if g1 && g2 then None else bitReversalIndices e)
    /\ cqtKernelReal e' = cqtKernelReal e /\ cqtKernelImag e' = cqtKernelImag e
    /\ forall real imag m, fft real imag m e' = Some (false, real, imag, e').
Proof.
  intros Hpow Hg. unfold initFFT. rewrite Hpow. cbn [negb].
  destruct g1, g2; cbn [negb orb andb] in *;
    try (eexists; split; [reflexivity|]; repeat split;
         intros; apply fft_null_tables; left; reflexivity).
  subst g3. destruct (fill_twiddles _ _) as [tr ti]. cbn [negb].
  eexists; split; [reflexivity|]. repeat split.
  intros; apply fft_null_tables; left; reflexivity.
Qed.

Lemma initFFT_allocation_failure_witness :
  isPowerOfTwo 8 = true /\ true && false && true = false
  /\ exists e',
       initFFT (L := sample_libm) true false true 8 engine8 = Some (false, e')
       /\ twiddleReal e' = None /\ twiddleImag e' = None
       /\ bitReversalIndices e' = (if true && false then None else bitReversalIndices engine8)
       /\ cqtKernelReal e' = cqtKernelReal engine8 /\ cqtKernelImag e' = cqtKernelImag engine8
       /\ forall real imag m, fft real imag m e' = Some (false, real, imag, e').
Proof.
  split; [reflexivity|]. split; [reflexivity|].
  apply (@initFFT_allocation_failure sample_libm true false true 8 engine8); reflexivity.
Defined.

(** Bit [j] of [rev_bits k i] is bit [k - 1 - j] of [i]. *)
Lemma rev_bits_testbit (k : nat) : forall i j,
  0 <= j < Z.of_nat k ->
  Z.testbit (rev_bits k i) j = Z.testbit i (Z.of_nat k - 1 - j).
Proof.
  induction k as [|k IH]; intros i j Hj; [lia|].
  rewrite rev_bits_S.
  pose proof (rev_bits_range k (i / 2)) as Hr.
  pose proof (pow2_pos (Z.of_nat k) ltac:(lia)) as Hp.
  pose proof (Z.mod_pos_bound i 2 ltac:(lia)) as Hb.
  destruct (Z.eq_dec j (Z.of_nat k)) as [->|Hne].
  - replace (Z.of_nat (S k) - 1 - Z.of_nat k) with 0 by lia.
    rewrite <- (Z.add_0_l (Z.of_nat k)) at 2.
    rewrite <- Z.div_pow2_bits by lia.
    rewrite Z.div_add_l, (Z.div_small (rev_bits k (i / 2))), Z.add_0_r by lia.
    rewrite !Z.bit0_odd. rewrite <- Z.bit0_odd.
    apply eq_true_iff_eq. rewrite !Z.bit0_odd, !Z.odd_spec.
    split; intros [m Hm]; [exists (i / 2)|exists 0];
      pose proof (Z.div_mod i 2 ltac:(lia)); lia.
  - rewrite <- (Z.mod_pow2_bits_low _ (Z.of_nat k)) by lia.
    rewrite Z.add_comm, Z_mod_plus_full, Z.mod_small, IH by lia.
    rewrite Z.div2_bits by lia. f_equal. lia.
Qed.

(** X4. The table [initFFT] builds for [n = 2 ^ k] is the bit-reversal table in
    the usual sense: bit [j] of [table[i]] is bit [k - 1 - j] of [i], and
    [table[i]] has no bit from position [k] upwards. *)
Theorem bit_reversal_table_bits `{LibM} (g1 g2 g3 : bool) (n : Z) (e e' : engine) :
  initFFT g1 g2 g3 n e = Some (true, e') ->
  n < 2 ^ 31 ->
  exists k table,
    0 <= k /\ n = 2 ^ k /\ bitReversalIndices e' = Some table
    /\ forall i, 0 <= i < n ->
         0 <= rd 0 table i < n
         /\ forall j, 0 <= j < k -> Z.testbit (rd 0 table i) j = Z.testbit i (k - 1 - j).
Proof.
  intros E Hn. destruct (initFFT_true_inv _ _ _ _ _ _ E) as (Hpow & -> & -> & ->).
  destruct (isPowerOfTwo_nat n Hpow Hn) as (k & Hk & ->).
  destruct (initFFT_tables k e Hk) as (tr & ti & E' & _).
  rewrite E in E'. apply Some_pair_inj in E'. subst e'.
  exists (Z.of_nat k), (rev_bits k <$> seqZ 0 (2 ^ Z.of_nat k)).
  split; [lia|]. split; [reflexivity|]. split; [reflexivity|].
  intros i Hi. rewrite rd_fmap_seqZ by lia. split; [apply rev_bits_range|].
  intros j Hj. apply rev_bits_testbit, Hj.
Qed.

Lemma bit_reversal_table_bits_witness :
  initFFT (L := sample_libm) true true true 8 engine0 = Some (true, engine8)
  /\ 8 < 2 ^ 31
  /\ exists k table,
       0 <= k /\ 8 = 2 ^ k /\ bitReversalIndices engine8 = Some table
       /\ forall i, 0 <= i < 8 ->
            0 <= rd 0 table i < 8
            /\ forall j, 0 <= j < k -> Z.testbit (rd 0 table i) j = Z.testbit i (k - 1 - j).
Proof.
  split; [vm_compute; reflexivity|]. split; [reflexivity|].
  apply (@bit_reversal_table_bits sample_libm true true true 8 engine0 engine8);
    [vm_compute; reflexivity|reflexivity].
Defined.

(** ** fft: termination and the permutation loop *)

Lemma length_swap (l : list float) (i j : Z) : length (swap l i j) = length l.
Proof. unfold swap. rewrite !length_wr. reflexivity. Qed.

Lemma rdf_swap (l : list float) (i j x : Z) :
  0 <= i < Z.of_nat (length l) -> 0 <= j < Z.of_nat (length l) -> i <> j ->
  rdf (swap l i j) x = if x =? j then rdf l i else if x =? i then rdf l j else rdf l x.
Proof.
  intros Hi Hj Hne. unfold swap, rdf.
  destruct (Z.eqb_spec x j) as [->|Hxj].
  - rewrite rd_wr_eq by (rewrite length_wr; lia). reflexivity.
  - rewrite (rd_wr_ne _ _ j x) by lia. destruct (Z.eqb_spec x i) as [->|Hxi].
    + rewrite rd_wr_eq by lia. reflexivity.
    + rewrite rd_wr_ne by lia. reflexivity.
Qed.

Lemma permute_lengths (rev : list Z) (n : Z) (b : bufs) : same_lengths b (permute rev n b).
Proof.
  unfold permute. destruct (Z_le_gt_dec 0 n) as [Hn|Hn];
    [|rewrite for_range_nil by lia; split; reflexivity].
  apply (for_range_inv (fun _ s => same_lengths b s)); [exact Hn|split; reflexivity|].
  intros i [re im] _ [H1 H2]. simpl in H1, H2. destruct (i <? rd 0 rev i); [|split; assumption].
  split; simpl; rewrite length_swap; assumption.
Qed.

Lemma butterfly_lengths (twr : list float) (twi : option (list float)) (half step i j : Z)
    (b b' : bufs) :
  butterfly twr twi half step i j b = Some b' -> same_lengths b b'.
Proof.
  destruct b as [re im]. unfold butterfly. destruct twi as [ti|]; [|discriminate].
  cbn [mbind option_bind]. intros E. injection E as <-.
  split; cbn [fst snd]; rewrite !length_wr; reflexivity.
Qed.

Lemma forM_butterfly_lengths (twr : list float) (twi : option (list float)) (half step i : Z)
    (idx : list Z) (b b' : bufs) :
  forM idx (butterfly twr twi half step i) b = Some b' -> same_lengths b b'.
Proof.
  revert b. induction idx as [|j idx IH]; intros b E.
  - injection E as <-. split; reflexivity.
  - cbn [forM] in E. destruct (butterfly _ _ _ _ _ j b) as [b1|] eqn:E1; [|discriminate].
    cbn [mbind option_bind] in E.
    destruct (butterfly_lengths _ _ _ _ _ _ _ _ E1) as [H1 H2].
    destruct (IH _ E) as [H3 H4]. split; congruence.
Qed.

Lemma blocks_lengths (twr : list float) (twi : option (list float)) (n len half step : Z)
    (fuel : nat) : forall (i : Z) (b b' : bufs),
  blocks twr twi n len half step fuel i b = Some b' -> same_lengths b b'.
Proof.
  induction fuel as [|fuel IH]; intros i b b' E; [discriminate|].
  cbn [blocks] in E. destruct (i <? n); [|injection E as <-; split; reflexivity].
  destruct (forM _ _ b) as [b1|] eqn:E1; [|discriminate]. cbn [mbind option_bind] in E.
  destruct (forM_butterfly_lengths _ _ _ _ _ _ _ _ E1) as [H1 H2].
  destruct (IH _ _ _ E) as [H3 H4]. split; congruence.
Qed.

Lemma stages_lengths (twr : list float) (twi : option (list float)) (n : Z) (fuel : nat) :
  forall (len : Z) (b b' : bufs),
    stages twr twi n fuel len b = Some b' -> same_lengths b b'.
Proof.
  induction fuel as [|fuel IH]; intros len b b' E; [discriminate|].
  cbn [stages] in E. destruct (len <=? n); [|injection E as <-; split; reflexivity].
  destruct (len =? 0); [discriminate|].
  destruct (blocks _ _ _ _ _ _ _ _ b) as [b1|] eqn:E1; [|discriminate].
  cbn [mbind option_bind] in E.
  destruct (blocks_lengths _ _ _ _ _ _ _ _ _ _ E1) as [H1 H2].
  destruct (IH _ _ _ E) as [H3 H4]. split; congruence.
Qed.

(** For [n = 2 ^ k] with [k <= 29] the stage loop ends within its fuel. *)
Lemma stages_total (twr twi : list float) (k : nat) :
  (k <= 29)%nat ->
  forall (fuel t : nat) (b : bufs),
    (t <= k)%nat -> (k - t < fuel)%nat ->
    exists b', stages twr (Some twi) (2 ^ Z.of_nat k) fuel (2 ^ Z.of_nat (S t)) b = Some b'.
Proof.
  intros Hk. set (n := 2 ^ Z.of_nat k).
  pose proof (pow2_pos (Z.of_nat k) ltac:(lia)) as Hp. fold n in Hp.
  pose proof (pow2_le_mono (Z.of_nat k) 30 ltac:(lia)) as Hle. fold n in Hle.
  induction fuel as [|fuel IH]; intros t b Ht Hf; [lia|].
  cbn [stages]. destruct (Z.leb_spec (2 ^ Z.of_nat (S t)) n) as [Hl|Hg];
    [|eexists; reflexivity].
  pose proof (pow2_pos (Z.of_nat (S t)) ltac:(lia)) as Hpt.
  destruct (Z.eqb_spec (2 ^ Z.of_nat (S t)) 0); [lia|].
  assert (t < k)%nat as Htk.
  { destruct (decide (t < k)%nat) as [|Hge]; [assumption|].
    assert (t = k) as -> by lia. unfold n in Hl. rewrite pow2_succ in Hl. lia. }
  destruct (blocks_total twr twi n (2 ^ Z.of_nat (S t)) (Z.quot (2 ^ Z.of_nat (S t)) 2)
              (Z.quot n (2 ^ Z.of_nat (S t))) ltac:(lia) Hle (S (Z.to_nat n)) 0 b)
    as [b1 ->]; [lia|lia|].
  cbn [mbind option_bind]. rewrite shl1_pow2 by lia. apply IH; lia.
Qed.

(** X5. For every power of two below [2 ^ 30], on an engine whose three tables
    are present, [fft] on non-null buffers returns [true], keeps the lengths
    of both buffers and leaves the engine as it was. *)
Theorem fft_returns (real imag : list float) (n : Z) (e : engine)
    (twr twi : list float) (rev : list Z) :
  isPowerOfTwo n = true -> n < 2 ^ 30 ->
  twiddleReal e = Some twr -> twiddleImag e = Some twi -> bitReversalIndices e = Some rev ->
  exists real' imag',
    fft (Some real) (Some imag) n e = Some (true, Some real', Some imag', e)
    /\ length real' = length real /\ length imag' = length imag.
Proof.
  intros Hpow Hn Etr Eti Erev.
  assert (2 ^ 30 = 1073741824) as P30 by reflexivity.
  destruct (isPowerOfTwo_nat n Hpow ltac:(lia)) as (k & Hk & ->).
  assert (k <= 29)%nat as Hk29.
  { destruct (decide (k <= 29)%nat) as [|Hgt]; [assumption|].
    assert (k = 30)%nat as -> by lia. change (2 ^ Z.of_nat 30) with (2 ^ 30) in Hn. lia. }
  unfold fft. rewrite Hpow, Etr, Eti, Erev. cbn [negb].
  destruct (stages_total twr twi k Hk29 32 0 (permute rev (2 ^ Z.of_nat k) (real, imag)))
    as [[re' im'] E]; [lia|lia|].
  change (2 ^ Z.of_nat 1) with 2 in E. rewrite E. cbn [mbind option_bind].
  exists re', im'. split; [reflexivity|].
  destruct (stages_lengths _ _ _ _ _ _ _ E) as [H1 H2].
  destruct (permute_lengths rev (2 ^ Z.of_nat k) (real, imag)) as [H3 H4].
  cbn [fst snd] in *. split; congruence.
Qed.

Lemma fft_returns_witness :
  isPowerOfTwo 8 = true /\ 8 < 2 ^ 30
  /\ twiddleReal engine8
     = Some [F32.one; S754_finite false 11863283 (-24); S754_finite true 12303662 (-48);
             S754_finite true 11863283 (-24)]
  /\ twiddleImag engine8
     = Some [S754_zero true; S754_finite true 11863283 (-24); S754_finite true 8388608 (-23);
             S754_finite true 11863283 (-24)]
  /\ bitReversalIndices engine8 = Some [0; 4; 2; 6; 1; 5; 3; 7]
  /\ exists real' imag',
       fft (Some (F32.of_Z <$> [1; 2; 3; 4; 5; 6; 7; 8])) (Some (constant F32.zero 8)) 8 engine8
       = Some (true, Some real', Some imag', engine8)
       /\ length real' = length (F32.of_Z <$> [1; 2; 3; 4; 5; 6; 7; 8])
       /\ length imag' = length (constant F32.zero 8).
Proof.
  split; [reflexivity|]. split; [reflexivity|]. split; [reflexivity|].
  split; [reflexivity|]. split; [reflexivity|].
  eapply (fft_returns _ _ 8 engine8); reflexivity.
Defined.

(** The permutation loop over a table that is an involution of [0, n): every
    pair is swapped once, so cell [i] ends with the sample that was in cell
    [table[i]]. *)
Lemma permute_involution (rev : list Z) (n : Z) (real imag : list float) :
  0 <= n -> Z.of_nat (length real) = n -> Z.of_nat (length imag) = n ->
  (forall i, 0 <= i < n -> 0 <= rd 0 rev i < n /\ rd 0 rev (rd 0 rev i) = i) ->
  forall i, 0 <= i < n ->
    rdf (fst (permute rev n (real, imag))) i = rdf real (rd 0 rev i)
    /\ rdf (snd (permute rev n (real, imag))) i = rdf imag (rd 0 rev i).
Proof.
  intros Hn Hlr Hli Hrev. unfold permute.
  enough (forall m, 0 <= m <= n ->
    let s := for_range 0 m
      (fun i '(re, im) =>
         let j := rd 0 rev i in
         if i <? j then (swap re i j, swap im i j) else (re, im)) (real, imag) in
    Z.of_nat (length (fst s)) = n /\ Z.of_nat (length (snd s)) = n
    /\ forall x, 0 <= x < n ->
         (x < m \/ rd 0 rev x < m ->
            rdf (fst s) x = rdf real (rd 0 rev x) /\ rdf (snd s) x = rdf imag (rd 0 rev x))
         /\ (m <= x /\ m <= rd 0 rev x ->
            rdf (fst s) x = rdf real x /\ rdf (snd s) x = rdf imag x)) as Hall.
  { intros i Hi. destruct (Hall n ltac:(lia)) as (_ & _ & H). apply (H i Hi). left. lia. }
  intros m Hm. cbv zeta.
  apply (for_range_inv
    (fun m (s : bufs) =>
       Z.of_nat (length (fst s)) = n /\ Z.of_nat (length (snd s)) = n
       /\ forall x, 0 <= x < n ->
            (x < m \/ rd 0 rev x < m ->
               rdf (fst s) x = rdf real (rd 0 rev x) /\ rdf (snd s) x = rdf imag (rd 0 rev x))
            /\ (m <= x /\ m <= rd 0 rev x ->
               rdf (fst s) x = rdf real x /\ rdf (snd s) x = rdf imag x))); [lia| |].
  - cbn [fst snd]. split; [exact Hlr|]. split; [exact Hli|].
    intros x Hx. destruct (Hrev x Hx) as [Hr _]. split; [lia|]. intros _. split; reflexivity.
  - intros c [re im] Hc (Hl1 & Hl2 & Hinv). cbn [fst snd] in *.
    destruct (Hrev c ltac:(lia)) as [Hj Hjj]. set (j := rd 0 rev c) in *.
    destruct (Z.ltb_spec c j) as [Hlt|Hge]; cbn [fst snd].
    + rewrite !length_swap. split; [exact Hl1|]. split; [exact Hl2|].
      intros x Hx. destruct (Hrev x Hx) as [Hy Hyy].
      rewrite !rdf_swap by lia.
      destruct (Z.eqb_spec x j) as [->|Hxj].
      { rewrite Hjj. split; [|lia]. intros _.
        apply (proj2 (Hinv c ltac:(lia))). fold j. lia. }
      destruct (Z.eqb_spec x c) as [->|Hxc].
      { fold j. split; [|lia]. intros _.
        apply (proj2 (Hinv j ltac:(lia))). rewrite Hjj. lia. }
      assert (rd 0 rev x <> c) as Hy1.
      { intros Heq. apply Hxj. unfold j. rewrite <- Heq, Hyy. reflexivity. }
      split; intros Hcase; apply (Hinv x Hx); lia.
    + split; [exact Hl1|]. split; [exact Hl2|].
      intros x Hx. destruct (Hrev x Hx) as [Hy Hyy]. split.
      * intros Hcase. destruct (Z_lt_le_dec x c) as [|Hxc];
          [apply (proj1 (Hinv x Hx)); left; assumption|].
        destruct (Z_lt_le_dec (rd 0 rev x) c) as [|Hyc];
          [apply (proj1 (Hinv x Hx)); right; assumption|].
        assert (x = c /\ rd 0 rev x = c) as [-> Hfix].
        { assert (x = c \/ rd 0 rev x = c) as [->|Heq] by lia.
          - split; [reflexivity|]. fold j. fold j in Hyc. lia.
          - assert (x = j) as -> by (unfold j; rewrite <- Heq, Hyy; reflexivity).
            split; [lia|]. rewrite Hjj. lia. }
        rewrite Hfix. apply (proj2 (Hinv c ltac:(lia))). lia.
      * intros Hcase. apply (proj2 (Hinv x Hx)). lia.
Qed.

(** X6. After a successful [initFFT n], the first loop of [fft] moves the sample
    at index [table[i]] to index [i], for every buffer of [n] cells: it is the
    bit-reversal permutation, each pair exchanged exactly once. *)
Theorem permute_is_bit_reversal `{LibM} (g1 g2 g3 : bool) (n : Z) (e e' : engine)
    (real imag : list float) :
  initFFT g1 g2 g3 n e = Some (true, e') ->
  n < 2 ^ 31 ->
  Z.of_nat (length real) = n -> Z.of_nat (length imag) = n ->
  exists table,
    bitReversalIndices e' = Some table
    /\ forall i, 0 <= i < n ->
         rdf (fst (permute table n (real, imag))) i = rdf real (rd 0 table i)
         /\ rdf (snd (permute table n (real, imag))) i = rdf imag (rd 0 table i).
Proof.
  intros E Hn Hlr Hli. destruct (initFFT_true_inv _ _ _ _ _ _ E) as (Hpow & -> & -> & ->).
  destruct (isPowerOfTwo_nat n Hpow Hn) as (k & Hk & ->).
  destruct (initFFT_tables k e Hk) as (tr & ti & E' & _).
  rewrite E in E'. apply Some_pair_inj in E'. subst e'.
  exists (rev_bits k <$> seqZ 0 (2 ^ Z.of_nat k)). split; [reflexivity|].
  pose proof (pow2_pos (Z.of_nat k) ltac:(lia)) as Hp.
  apply permute_involution; try assumption; [lia|].
  intros i Hi. pose proof (rev_bits_range k i) as Hr.
  rewrite !rd_fmap_seqZ by lia. split; [exact Hr|apply rev_bits_involutive; lia].
Qed.

Lemma permute_is_bit_reversal_witness :
  initFFT (L := sample_libm) true true true 8 engine0 = Some (true, engine8)
  /\ 8 < 2 ^ 31
  /\ Z.of_nat (length (F32.of_Z <$> [1; 2; 3; 4; 5; 6; 7; 8])) = 8
  /\ Z.of_nat (length (constant F32.zero 8)) = 8
  /\ exists table,
       bitReversalIndices engine8 = Some table
       /\ forall i, 0 <= i < 8 ->
            rdf (fst (permute table 8 (F32.of_Z <$> [1; 2; 3; 4; 5; 6; 7; 8],
                                       constant F32.zero 8))) i
            = rdf (F32.of_Z <$> [1; 2; 3; 4; 5; 6; 7; 8]) (rd 0 table i)
            /\ rdf (snd (permute table 8 (F32.of_Z <$> [1; 2; 3; 4; 5; 6; 7; 8],
                                          constant F32.zero 8))) i
               = rdf (constant F32.zero 8) (rd 0 table i).
Proof.
  split; [vm_compute; reflexivity|]. split; [reflexivity|].
  split; [reflexivity|]. split; [reflexivity|].
  apply (@permute_is_bit_reversal sample_libm true true true 8 engine0 engine8);
    [vm_compute; reflexivity|reflexivity|reflexivity|reflexivity].
Defined.

(** ** ifft *)

Lemma rdf_wr_eq (l : list float) (i : Z) (x : float) :
  0 <= i < Z.of_nat (length l) -> rdf (wr l i x) i = x.
Proof. apply rd_wr_eq. Qed.

Lemma rdf_wr_ne (l : list float) (i j : Z) (x : float) :
  i <> j -> rdf (wr l i x) j = rdf l j.
Proof. apply rd_wr_ne. Qed.

Lemma map_of_cells (f : float -> float) (l c : list float) :
  length c = length l ->
  (forall x, 0 <= x < Z.of_nat (length l) -> rdf c x = f (rdf l x)) ->
  c = f <$> l.
Proof.
  intros Hlen Hcells. apply (list_eq_rd F32.zero); [rewrite length_fmap; exact Hlen|].
  intros x Hx. fold (rdf c x). rewrite Hcells by lia.
  unfold rdf, rd. destruct (Z.ltb_spec x 0); [lia|].
  rewrite !nth_lookup, list_lookup_fmap.
  destruct (l !! Z.to_nat x) eqn:E; [reflexivity|].
  apply lookup_ge_None in E. lia.
Qed.

(** A loop that rewrites every cell of two blocks of [n] cells in place is a
    map over each block. *)
Lemma for_range_map2 (f g : float -> float) (n : Z) (re im : list float) :
  Z.of_nat (length re) = n -> Z.of_nat (length im) = n ->
  for_range 0 n (fun i '(re, im) => (wr re i (f (rdf re i)), wr im i (g (rdf im i)))) (re, im)
  = (f <$> re, g <$> im).
Proof.
  intros Hr Hi. assert (0 <= n) as Hn by lia.
  pose proof (for_range_inv
    (fun m (s : list float * list float) =>
       length (fst s) = length re /\ length (snd s) = length im
       /\ forall x, 0 <= x < n ->
            rdf (fst s) x = (if x <? m then f (rdf re x) else rdf re x)
            /\ rdf (snd s) x = (if x <? m then g (rdf im x) else rdf im x))
    0 n (fun i '(re, im) => (wr re i (f (rdf re i)), wr im i (g (rdf im i)))) (re, im) Hn)
    as Hinv.
  destruct (for_range 0 n _ (re, im)) as [re' im']. cbn [fst snd] in Hinv.
  destruct Hinv as (Hl1 & Hl2 & Hcells).
  - split; [reflexivity|]. split; [reflexivity|]. intros x Hx.
    rewrite (proj2 (Z.ltb_ge x 0)) by lia. split; reflexivity.
  - intros i [c1 c2] Hi' (Hl1 & Hl2 & Hcells). cbn [fst snd] in *. rewrite !length_wr.
    split; [exact Hl1|]. split; [exact Hl2|].
    intros x Hx. destruct (Hcells x Hx) as [H1 H2]. destruct (Hcells i ltac:(lia)) as [H3 H4].
    rewrite (proj2 (Z.ltb_ge i i)) in H3, H4 by lia.
    destruct (Z.eq_dec x i) as [->|Hne].
    + rewrite !rdf_wr_eq by lia. rewrite (proj2 (Z.ltb_lt i (i + 1))) by lia.
      rewrite H3, H4. split; reflexivity.
    + rewrite !rdf_wr_ne by lia. rewrite H1, H2.
      destruct (Z.ltb_spec x i), (Z.ltb_spec x (i + 1)); try (split; reflexivity); lia.
  - f_equal; apply map_of_cells; try assumption; intros x Hx;
      destruct (Hcells x ltac:(lia)) as [H1 H2];
      rewrite (proj2 (Z.ltb_lt x n)) in H1, H2 by lia; assumption.
Qed.

Lemma for_range_map (f : float -> float) (n : Z) (l : list float) :
  Z.of_nat (length l) = n ->
  for_range 0 n (fun i l => wr l i (f (rdf l i))) l = f <$> l.
Proof.
  intros Hl. assert (0 <= n) as Hn by lia.
  pose proof (for_range_inv
    (fun m (c : list float) =>
       length c = length l
       /\ forall x, 0 <= x < n -> rdf c x = if x <? m then f (rdf l x) else rdf l x)
    0 n (fun i l => wr l i (f (rdf l i))) l Hn) as Hinv.
  destruct Hinv as [Hlen Hcells].
  - split; [reflexivity|]. intros x Hx. rewrite (proj2 (Z.ltb_ge x 0)) by lia. reflexivity.
  - intros i c Hi [Hlen Hcells]. rewrite length_wr. split; [exact Hlen|].
    intros x Hx. pose proof (Hcells i ltac:(lia)) as H3.
    rewrite (proj2 (Z.ltb_ge i i)) in H3 by lia.
    destruct (Z.eq_dec x i) as [->|Hne].
    + rewrite rdf_wr_eq by lia. rewrite (proj2 (Z.ltb_lt i (i + 1))) by lia.
      rewrite H3. reflexivity.
    + rewrite rdf_wr_ne by lia. rewrite Hcells by lia.
      destruct (Z.ltb_spec x i), (Z.ltb_spec x (i + 1)); try reflexivity; lia.
  - apply map_of_cells; [exact Hlen|]. intros x Hx.
    rewrite Hcells, (proj2 (Z.ltb_lt x n)) by lia. reflexivity.
Qed.

(** Multiplying by [-y] is negating the product by [y], exactly: rounding
    to nearest is symmetric. *)
Lemma binary_round_aux_opp (s : bool) (m e : Z) (l : location) :
  binary_round_aux F32.prec F32.emax (negb s) m e l
  = SFopp (binary_round_aux F32.prec F32.emax s m e l).
Proof.
  unfold binary_round_aux.
  destruct (shr_fexp F32.prec F32.emax m e l) as [mrs' e'].
  destruct (shr_fexp F32.prec F32.emax _ e' loc_Exact) as [mrs'' e''].
  destruct (shr_m mrs''); try reflexivity.
  destruct (e'' <=? F32.emax - F32.prec); reflexivity.
Qed.

Lemma fmul_neg_r (x y : float) : F32.mul x (F32.neg y) = F32.neg (F32.mul x y).
Proof.
  destruct x as [sx|sx| |sx mx ex], y as [sy|sy| |sy my ey];
    try reflexivity; try (destruct sx, sy; reflexivity); try (destruct sx; reflexivity).
  change (binary_round_aux F32.prec F32.emax (xorb sx (negb sy))
            (Z.pos (mx * my)) (ex + ey) loc_Exact
          = SFopp (binary_round_aux F32.prec F32.emax (xorb sx sy)
                     (Z.pos (mx * my)) (ex + ey) loc_Exact)).
  replace (xorb sx (negb sy)) with (negb (xorb sx sy)) by (destruct sx, sy; reflexivity).
  apply binary_round_aux_opp.
Qed.

Lemma fft_true_lengths (real imag : list float) (n : Z) (e e' : engine)
    (real' imag' : list float) :
  fft (Some real) (Some imag) n e = Some (true, Some real', Some imag', e') ->
  isPowerOfTwo n = true /\ length real' = length real /\ length imag' = length imag.
Proof.
  unfold fft. intros E. destruct (isPowerOfTwo n); cbn [negb] in E; [|discriminate].
  split; [reflexivity|].
  destruct (twiddleReal e) as [twr|]; [|discriminate].
  destruct (bitReversalIndices e) as [rev|]; [|discriminate].
  destruct (stages _ _ _ _ _ _) as [[re' im']|] eqn:Es; [|discriminate].
  cbn [mbind option_bind] in E. injection E as <- <- <-.
  destruct (stages_lengths _ _ _ _ _ _ _ Es) as [H1 H2].
  destruct (permute_lengths rev n (real, imag)) as [H3 H4].
  cbn [fst snd] in *. split; congruence.
Qed.

(** X7. [ifft] is the conjugation trick, to the bit: when [fft] succeeds on the
    real buffer and the negated imaginary buffer, [ifft] returns the result
    of that [fft] with every real cell multiplied by [1.0f / n] and every
    imaginary cell multiplied by [1.0f / n] and negated. *)
Theorem ifft_is_conjugated_fft (real imag real_f imag_f : list float) (n : Z) (e e' : engine) :
  fft (Some real) (Some (F32.neg <$> imag)) n e = Some (true, Some real_f, Some imag_f, e') ->
  Z.of_nat (length real) = n -> Z.of_nat (length imag) = n ->
  let invN := F32.div F32.one (F32.of_Z n) in
  ifft (Some real) (Some imag) n e
  = Some (true, Some ((fun x => F32.mul x invN) <$> real_f),
                Some ((fun x => F32.neg (F32.mul x invN)) <$> imag_f), e').
Proof.
  intros E Hr Hi invN.
  destruct (fft_true_lengths _ _ _ _ _ _ _ E) as (Hpow & Hlr & Hli).
  rewrite length_fmap in Hli.
  unfold ifft. rewrite Hpow. cbn [negb].
  rewrite (for_range_map F32.neg n imag Hi), E. cbn [mbind option_bind].
  rewrite (for_range_map2 (fun x => F32.mul x invN) (fun x => F32.mul x (F32.neg invN)) n)
    by lia.
  assert ((fun x => F32.mul x (F32.neg invN)) <$> imag_f
          = (fun x => F32.neg (F32.mul x invN)) <$> imag_f) as ->
    by (apply list_fmap_ext; intros _ x _; apply fmul_neg_r).
  reflexivity.
Qed.

Lemma ifft_is_conjugated_fft_witness :
  fft (Some (constant F32.one 8)) (Some (F32.neg <$> constant F32.zero 8)) 8 engine8
  = Some (true, Some (F32.of_Z 8 :: constant F32.zero 7),
          Some (F32.neg F32.zero :: constant F32.zero 7), engine8)
  /\ Z.of_nat (length (constant F32.one 8)) = 8
  /\ Z.of_nat (length (constant F32.zero 8)) = 8
  /\ ifft (Some (constant F32.one 8)) (Some (constant F32.zero 8)) 8 engine8
     = Some (true,
             Some ((fun x => F32.mul x (F32.div F32.one (F32.of_Z 8)))
                     <$> (F32.of_Z 8 :: constant F32.zero 7)),
             Some ((fun x => F32.neg (F32.mul x (F32.div F32.one (F32.of_Z 8))))
                     <$> (F32.neg F32.zero :: constant F32.zero 7)),
             engine8).
Proof.
  split; [vm_compute; reflexivity|]. split; [reflexivity|]. split; [reflexivity|].
  apply (ifft_is_conjugated_fft (constant F32.one 8) (constant F32.zero 8)
           (F32.of_Z 8 :: constant F32.zero 7) (F32.neg F32.zero :: constant F32.zero 7)
           8 engine8 engine8);
    [vm_compute; reflexivity|reflexivity|reflexivity].
Defined.

(** X8. When [ifft] is called on a power of two while a table is null, it
    returns [false] after it has negated the imaginary buffer: the caller
    gets the buffer back with every sign flipped. *)
Theorem ifft_refused_leaves_imag_negated (real imag : list float) (n : Z) (e : engine) :
  isPowerOfTwo n = true ->
  twiddleReal e = None \/ bitReversalIndices e = None ->
  Z.of_nat (length imag) = n ->
  ifft (Some real) (Some imag) n e = Some (false, Some real, Some (F32.neg <$> imag), e).
Proof.
  intros Hpow Hnull Hi. unfold ifft. rewrite Hpow. cbn [negb].
  rewrite (for_range_map F32.neg n imag Hi), fft_null_tables by exact Hnull.
  reflexivity.
Qed.

Lemma ifft_refused_leaves_imag_negated_witness :
  isPowerOfTwo 2 = true
  /\ (twiddleReal engine0 = None \/ bitReversalIndices engine0 = None)
  /\ Z.of_nat (length [F32.one; F32.two]) = 2
  /\ ifft (Some [F32.zero; F32.zero]) (Some [F32.one; F32.two]) 2 engine0
     = Some (false, Some [F32.zero; F32.zero], Some [F32.neg F32.one; F32.neg F32.two], engine0).
Proof.
  split; [reflexivity|]. split; [left; reflexivity|]. split; [reflexivity|].
  apply (ifft_refused_leaves_imag_negated [F32.zero; F32.zero] [F32.one; F32.two] 2 engine0);
    [reflexivity|left; reflexivity|reflexivity].
Defined.

(** ** fft followed by ifft *)









(** ** initCQT and cqt together *)

Lemma length_resize (count : Z) (row : list float) (bank : list (list float)) :
  length (resize count row bank) = Z.to_nat count.
Proof. unfold resize. rewrite length_app, length_take, length_replicate. lia. Qed.

Lemma rd_resize_old (count : Z) (row : list float) (bank : list (list float)) (k : Z) :
  0 <= k < count -> k < Z.of_nat (length bank) ->
  rd [] (resize count row bank) k = rd [] bank k.
Proof.
  intros Hk Hl. unfold resize, rd. destruct (Z.ltb_spec k 0); [lia|].
  rewrite !nth_lookup, lookup_app_l by (rewrite length_take; lia).
  rewrite lookup_take_lt by lia. reflexivity.
Qed.

(** A round of the bin loop never touches the twiddle or bit-reversal
    tables. *)
Lemma cqt_bin_tables `{LibM} (dv : float -> float -> option float)
    (binsPerOctave n : Z) (sampleRate minFreq Q : float) (k : Z) (go go' : bool)
    (e e' : engine) :
  cqt_bin dv binsPerOctave n sampleRate minFreq Q k (go, e) = Some (go', e') ->
  twiddleReal e' = twiddleReal e /\ twiddleImag e' = twiddleImag e
  /\ bitReversalIndices e' = bitReversalIndices e.
Proof.
  intros E. unfold cqt_bin in E.
  destruct go; cbn [negb] in E; [|injection E as <- <-; frame_done].
  destruct (out_of_band sampleRate _); [injection E as <- <-; frame_done|].
  destruct (raw_filter_len _ _ _) as [fl|]; [|discriminate]. cbn [mbind option_bind] in E.
  destruct (clamp_len n fl <=? 0); [injection E as <- <-; frame_done|].
  destruct (time_kernel _ _ _ _ _) as [[tempReal tempImag]|]; [|discriminate].
  cbn [mbind option_bind] in E.
  destruct (fft _ _ _ _) as [[[[r re1] im1] e1]|] eqn:Ef; [|discriminate].
  destruct (fft_cases _ _ _ _ _ _ _ _ Ef) as (-> & _ & _). cbn [mbind option_bind] in E.
  destruct r, re1, im1; injection E as <- <-; frame_done.
Qed.

(** What every finished run of the bin loop has kept: the tables, the number
    of kernels, and the kernel of every bin that is out of band. *)
Lemma cqt_bins_frame `{LibM} (dv : float -> float -> option float)
    (binsPerOctave n totalBins : Z) (sampleRate minFreq Q : float) (r : bool) (e e' : engine) :
  0 <= totalBins ->
  forM (seqZ 0 totalBins) (cqt_bin dv binsPerOctave n sampleRate minFreq Q) (true, e)
  = Some (r, e') ->
  twiddleReal e' = twiddleReal e /\ twiddleImag e' = twiddleImag e
  /\ bitReversalIndices e' = bitReversalIndices e
  /\ length (cqtKernelReal e') = length (cqtKernelReal e)
  /\ length (cqtKernelImag e') = length (cqtKernelImag e)
  /\ forall k, out_of_band sampleRate (bin_freq binsPerOctave minFreq k) = true ->
       rd [] (cqtKernelReal e') k = rd [] (cqtKernelReal e) k
       /\ rd [] (cqtKernelImag e') k = rd [] (cqtKernelImag e) k.
Proof.
  intros Hpos E.
  apply (forM_post
    (fun (_ : Z) (s : bool * engine) =>
       twiddleReal (snd s) = twiddleReal e /\ twiddleImag (snd s) = twiddleImag e
       /\ bitReversalIndices (snd s) = bitReversalIndices e
       /\ length (cqtKernelReal (snd s)) = length (cqtKernelReal e)
       /\ length (cqtKernelImag (snd s)) = length (cqtKernelImag e)
       /\ forall k, out_of_band sampleRate (bin_freq binsPerOctave minFreq k) = true ->
            rd [] (cqtKernelReal (snd s)) k = rd [] (cqtKernelReal e) k
            /\ rd [] (cqtKernelImag (snd s)) k = rd [] (cqtKernelImag e) k)
    0 totalBins (cqt_bin dv binsPerOctave n sampleRate minFreq Q) (true, e) (r, e') Hpos);
    [frame_done| |exact E].
  intros i [go e1] [go' e2] Hi (H1 & H2 & H3 & H4 & H5 & H6) Ei. cbn [fst snd] in *.
  destruct (cqt_bin_tables _ _ _ _ _ _ _ _ _ _ _ Ei) as (T1 & T2 & T3).
  destruct (cqt_bin_frame _ _ _ _ _ _ _ _ _ _ _ Ei) as (Hskip & _ & L1 & L2 & Hother).
  repeat split; try congruence.
  - destruct (Z.eq_dec k i) as [->|Hne].
    + destruct (Hskip H0) as [_ ->]. apply H6, H0.
    + rewrite (proj1 (Hother k Hne)). apply H6, H0.
  - destruct (Z.eq_dec k i) as [->|Hne].
    + destruct (Hskip H0) as [_ ->]. apply H6, H0.
    + rewrite (proj2 (Hother k Hne)). apply H6, H0.
Qed.

(** A call of [initCQT] that returns [true] has passed the guard. *)
Lemma initCQT_true_guard `{LibM} (binsPerOctave octaves n : Z) (sampleRate minFreq : float)
    (e e' : engine) :
  initCQT binsPerOctave octaves n sampleRate minFreq e = Some (true, e') ->
  0 < binsPerOctave /\ 0 < octaves /\ 0 < n /\ 0 <= Int.mul binsPerOctave octaves
  /\ forM (seqZ 0 (Int.mul binsPerOctave octaves))
       (cqt_bin ieee_div binsPerOctave n sampleRate minFreq (quality binsPerOctave))
       (true, with_kernels
                (resize (Int.mul binsPerOctave octaves) (block F32.zero n) (cqtKernelReal e))
                (resize (Int.mul binsPerOctave octaves) (block F32.zero n) (cqtKernelImag e)) e)
     = Some (true, e').
Proof.
  unfold initCQT, initCQT_with. intros E.
  destruct (binsPerOctave <=? 0) eqn:E1; [discriminate|].
  destruct (octaves <=? 0) eqn:E2; [discriminate|].
  destruct (n <=? 0) eqn:E3; [discriminate|]. cbn [orb] in E.
  destruct (_ || _); [discriminate|].
  destruct (Z.ltb_spec (Int.mul binsPerOctave octaves) 0); [discriminate|].
  apply Z.leb_gt in E1, E2, E3. repeat split; try assumption.
Qed.

(** X9. After a call of [initCQT] that returns [true], the bank holds exactly
    [binsPerOctave * octaves] kernels (the [int] product), the twiddle and
    bit-reversal tables are the ones from before, and [cqt] with the same
    three counts and non-null buffers returns [true]. *)
Theorem initCQT_then_cqt_accepts `{LibM} (binsPerOctave octaves n : Z)
    (sampleRate minFreq : float) (e e' : engine)
    (inputReal inputImag outputReal outputImag : list float) :
  initCQT binsPerOctave octaves n sampleRate minFreq e = Some (true, e') ->
  Z.of_nat (length (cqtKernelReal e')) = Int.mul binsPerOctave octaves
  /\ Z.of_nat (length (cqtKernelImag e')) = Int.mul binsPerOctave octaves
  /\ twiddleReal e' = twiddleReal e /\ twiddleImag e' = twiddleImag e
  /\ bitReversalIndices e' = bitReversalIndices e
  /\ exists outR outI,
       cqt (Some inputReal) (Some inputImag) (Some outputReal) (Some outputImag)
           n binsPerOctave octaves e'
       = (true, Some outR, Some outI, e').
Proof.
  intros E. destruct (initCQT_true_guard _ _ _ _ _ _ _ E) as (Hb & Ho & Hn & Ht & Eloop).
  destruct (cqt_bins_frame _ _ _ _ _ _ _ _ _ _ Ht Eloop) as (T1 & T2 & T3 & L1 & L2 & _).
  cbn [twiddleReal twiddleImag bitReversalIndices cqtKernelReal cqtKernelImag with_kernels]
    in T1, T2, T3, L1, L2.
  rewrite length_resize in L1, L2.
  assert (Z.of_nat (length (cqtKernelReal e')) = Int.mul binsPerOctave octaves) as HL1 by lia.
  split; [exact HL1|]. split; [lia|]. split; [exact T1|]. split; [exact T2|].
  split; [exact T3|].
  unfold cqt.
  rewrite (proj2 (Z.leb_gt binsPerOctave 0)), (proj2 (Z.leb_gt octaves 0)),
    (proj2 (Z.leb_gt n 0)) by lia. cbn [orb].
  pose proof (wrap32_range (binsPerOctave * octaves)) as Hr.
  fold (Int.mul binsPerOctave octaves) in Hr. unfold Int.in_range in Hr.
  rewrite HL1, wrap32_id by (unfold Int.in_range; lia). rewrite Z.ltb_irrefl.
  destruct (for_range 0 (Int.mul binsPerOctave octaves) _ (outputReal, outputImag))
    as [outR outI].
  exists outR, outI. reflexivity.
Qed.

Lemma initCQT_then_cqt_accepts_witness :
  initCQT (L := sample_libm) 1 2 2 (F32.of_Z 8) (F32.of_Z 2) engine2 = Some (true, engine2_cqt)
  /\ Z.of_nat (length (cqtKernelReal engine2_cqt)) = Int.mul 1 2
  /\ Z.of_nat (length (cqtKernelImag engine2_cqt)) = Int.mul 1 2
  /\ twiddleReal engine2_cqt = twiddleReal engine2
  /\ twiddleImag engine2_cqt = twiddleImag engine2
  /\ bitReversalIndices engine2_cqt = bitReversalIndices engine2
  /\ exists outR outI,
       cqt (Some [F32.one; F32.zero]) (Some [F32.zero; F32.zero])
           (Some [F32.two; F32.two]) (Some [F32.two; F32.two]) 2 1 2 engine2_cqt
       = (true, Some outR, Some outI, engine2_cqt).
Proof.
  split; [vm_compute; reflexivity|].
  apply (@initCQT_then_cqt_accepts sample_libm 1 2 2 (F32.of_Z 8) (F32.of_Z 2)
           engine2 engine2_cqt).
  vm_compute; reflexivity.
Defined.

(** X10. [initCQT] does not clear the bank: run over a bank that already holds a
    kernel for bin [k], it leaves that kernel in place when bin [k] is out of
    band, whatever it returns. *)
Theorem initCQT_keeps_stale_kernel `{LibM} (binsPerOctave octaves n : Z)
    (sampleRate minFreq : float) (e e' : engine) (r : bool) (k : Z) :
  initCQT binsPerOctave octaves n sampleRate minFreq e = Some (r, e') ->
  0 <= k < Int.mul binsPerOctave octaves ->
  k < Z.of_nat (length (cqtKernelReal e)) -> k < Z.of_nat (length (cqtKernelImag e)) ->
  out_of_band sampleRate (bin_freq binsPerOctave minFreq k) = true ->
  rd [] (cqtKernelReal e') k = rd [] (cqtKernelReal e) k
  /\ rd [] (cqtKernelImag e') k = rd [] (cqtKernelImag e) k.
Proof.
  intros E Hk Hl1 Hl2 Hout. unfold initCQT, initCQT_with in E.
  destruct (_ || _); [injection E as <- <-; split; reflexivity|].
  set (totalBins := Int.mul binsPerOctave octaves) in *.
  destruct (Z.ltb_spec totalBins 0) as [|Hpos]; [discriminate|].
  destruct (cqt_bins_frame _ _ _ _ _ _ _ _ _ _ Hpos E) as (_ & _ & _ & _ & _ & Hrows).
  destruct (Hrows k Hout) as [-> ->].
  cbn [cqtKernelReal cqtKernelImag with_kernels].
  rewrite !rd_resize_old by lia. split; reflexivity.
Qed.

Lemma initCQT_keeps_stale_kernel_witness :
  let stale := with_kernels [[F32.one; F32.two]; [F32.two; F32.one]]
                            [[F32.two; F32.one]; [F32.one; F32.two]] engine2 in
  (exists e', initCQT (L := sample_libm) 1 2 2 (F32.of_Z 8) (F32.of_Z 2) stale = Some (true, e')
     /\ 0 <= 1 < Int.mul 1 2
     /\ 1 < Z.of_nat (length (cqtKernelReal stale))
     /\ 1 < Z.of_nat (length (cqtKernelImag stale))
     /\ out_of_band (F32.of_Z 8) (bin_freq (L := sample_libm) 1 (F32.of_Z 2) 1) = true
     /\ rd [] (cqtKernelReal e') 1 = [F32.two; F32.one]
     /\ rd [] (cqtKernelImag e') 1 = [F32.one; F32.two]).
Proof.
  intros stale.
  destruct (initCQT (L := sample_libm) 1 2 2 (F32.of_Z 8) (F32.of_Z 2) stale)
    as [[r e']|] eqn:E; [|vm_compute in E; discriminate].
  assert (r = true) as -> by (vm_compute in E; injection E as <- _; reflexivity).
  exists e'. split; [reflexivity|]. split; [change (Int.mul 1 2) with 2; lia|].
  split; [simpl; lia|]. split; [simpl; lia|]. split; [vm_compute; reflexivity|].
  apply (@initCQT_keeps_stale_kernel sample_libm 1 2 2 (F32.of_Z 8) (F32.of_Z 2) stale e' true 1 E).
  - change (Int.mul 1 2) with 2; lia.
  - simpl; lia.
  - simpl; lia.
  - vm_compute; reflexivity.
Defined.

(** X11. With a null table, or a length that is not a power of two, the inner
    [fft] refuses every kernel: a call of [initCQT] can then return [true]
    only if every bin was passed over, so one bin in band with a positive
    filter length makes [initCQT] before [initFFT] return [false]. *)
Theorem initCQT_needs_initFFT `{LibM} (binsPerOctave octaves n : Z)
    (sampleRate minFreq : float) (e e' : engine) :
  twiddleReal e = None \/ bitReversalIndices e = None ->
  initCQT binsPerOctave octaves n sampleRate minFreq e = Some (true, e') ->
  forall k, 0 <= k < Int.mul binsPerOctave octaves ->
    bin_skipped binsPerOctave n sampleRate minFreq k.
Proof.
  intros Hnull E. destruct (initCQT_true_guard _ _ _ _ _ _ _ E) as (_ & _ & _ & Ht & Eloop).
  set (totalBins := Int.mul binsPerOctave octaves) in *.
  set (e1 := with_kernels _ _ e) in Eloop.
  assert (forall s : bool * engine,
            twiddleReal (snd s) = None \/ bitReversalIndices (snd s) = None ->
            forall i s', cqt_bin ieee_div binsPerOctave n sampleRate minFreq
                           (quality binsPerOctave) i s = Some s' ->
              snd s' = snd s
              /\ (fst s' = true -> fst s = true /\ bin_skipped binsPerOctave n sampleRate minFreq i))
    as Hround.
  { intros [go e2] Hn2 i [go' e3] Ei. cbn [fst snd] in *. unfold cqt_bin in Ei.
    unfold bin_skipped. cbv zeta.
    destruct go; cbn [negb] in Ei; [|injection Ei as <- <-; split; [reflexivity|discriminate]].
    destruct (out_of_band sampleRate _) eqn:Eo.
    { injection Ei as <- <-. split; [reflexivity|]. intros _. split; [reflexivity|left; reflexivity]. }
    destruct (raw_filter_len _ _ _) as [fl|] eqn:Ef; [|discriminate].
    cbn [mbind option_bind] in Ei.
    destruct (Z.leb_spec (clamp_len n fl) 0) as [Hle|Hgt].
    { injection Ei as <- <-. split; [reflexivity|]. intros _. split; [reflexivity|].
      right. exists fl. split; [reflexivity|exact Hle]. }
    unfold time_kernel, ieee_div in Ei. cbn [mbind option_bind] in Ei.
    destruct (for_range 0 (clamp_len n fl) _ _) as [tempReal tempImag].
    rewrite fft_null_tables in Ei by exact Hn2. cbn [mbind option_bind] in Ei.
    injection Ei as <- <-. split; [reflexivity|discriminate]. }
  pose proof (forM_post
    (fun m (s : bool * engine) =>
       snd s = e1
       /\ (fst s = true -> forall k, 0 <= k < m -> bin_skipped binsPerOctave n sampleRate minFreq k))
    0 totalBins
    (cqt_bin ieee_div binsPerOctave n sampleRate minFreq (quality binsPerOctave))
    (true, e1) (true, e') Ht) as Hpost.
  cbn [fst snd] in Hpost. rewrite Z.add_0_l in Hpost.
  destruct Hpost as [_ Hall]; [split; [reflexivity|intros; lia]| |exact Eloop|exact (Hall eq_refl)].
  intros i s s' Hi [He Hsk] Ei.
  destruct (Hround s ltac:(rewrite He; exact Hnull) i s' Ei) as [Hs Hgo].
  split; [congruence|]. intros Hs' k Hk. destruct (Hgo Hs') as [Hgo1 Hski].
  destruct (Z.eq_dec k i) as [->|]; [exact Hski|]. apply Hsk; [exact Hgo1|lia].
Qed.

Lemma initCQT_needs_initFFT_witness :
  (twiddleReal engine0 = None \/ bitReversalIndices engine0 = None)
  /\ initCQT (L := sample_libm) 1 1 3 (F32.of_Z 4) (F32.of_Z 2) engine0
     = Some (true, with_kernels [[F32.zero; F32.zero; F32.zero]]
                                [[F32.zero; F32.zero; F32.zero]] engine0)
  /\ forall k, 0 <= k < Int.mul 1 1 ->
       bin_skipped (L := sample_libm) 1 3 (F32.of_Z 4) (F32.of_Z 2) k.
Proof.
  split; [left; reflexivity|]. split; [vm_compute; reflexivity|].
  apply (@initCQT_needs_initFFT sample_libm 1 1 3 (F32.of_Z 4) (F32.of_Z 2) engine0
           (with_kernels [[F32.zero; F32.zero; F32.zero]]
                         [[F32.zero; F32.zero; F32.zero]] engine0)).
  - left; reflexivity.
  - vm_compute; reflexivity.
Defined.

(** X12. [cqt] writes the cells [0 .. totalBins - 1] of the two output buffers
    and nothing else: the buffers keep their lengths, every cell outside that
    range keeps its value, and a refused call hands both buffers back as they
    were. *)
Theorem cqt_writes_only_requested_bins (inputReal inputImag outputReal outputImag : list float)
    (n binsPerOctave octaves : Z) (e e' : engine) (r : bool) (outputReal' outputImag' : buffer) :
  cqt (Some inputReal) (Some inputImag) (Some outputReal) (Some outputImag)
      n binsPerOctave octaves e
  = (r, outputReal', outputImag', e') ->
  exists outR outI,
    outputReal' = Some outR /\ outputImag' = Some outI
    /\ length outR = length outputReal /\ length outI = length outputImag
    /\ (r = false -> outR = outputReal /\ outI = outputImag)
    /\ forall x, x < 0 \/ Int.mul binsPerOctave octaves <= x ->
         rdf outR x = rdf outputReal x /\ rdf outI x = rdf outputImag x.
Proof.
  unfold cqt. intros E.
  destruct (_ || _); [injection E as <- <- <- <-; eexists _, _; frame_done|].
  set (totalBins := Int.mul binsPerOctave octaves) in *.
  destruct (_ <? totalBins); [injection E as <- <- <- <-; eexists _, _; frame_done|].
  assert (forall body,
    body = (fun k '(outR, outI) =>
              let '(sumReal, sumImag) :=
                cqt_sums inputReal inputImag (rd [] (cqtKernelReal e) k)
                  (rd [] (cqtKernelImag e) k) n in
              (wr outR k (F32.mul sumReal (F32.div F32.one (F32.of_Z n))),
               wr outI k (F32.mul sumImag (F32.div F32.one (F32.of_Z n))))) ->
    let s := for_range 0 totalBins body (outputReal, outputImag) in
    length (fst s) = length outputReal /\ length (snd s) = length outputImag
    /\ forall x, x < 0 \/ totalBins <= x ->
         rdf (fst s) x = rdf outputReal x /\ rdf (snd s) x = rdf outputImag x) as Hloop.
  { intros body ->. cbv zeta. destruct (Z_le_gt_dec 0 totalBins) as [Hpos|Hneg];
      [|rewrite for_range_nil by lia; frame_done].
    apply (for_range_inv
      (fun m (s : list float * list float) =>
         length (fst s) = length outputReal /\ length (snd s) = length outputImag
         /\ forall x, x < 0 \/ m <= x ->
              rdf (fst s) x = rdf outputReal x /\ rdf (snd s) x = rdf outputImag x));
      [exact Hpos|frame_done|].
    intros i [oR oI] Hi (H1 & H2 & H3). cbn [fst snd] in *.
    destruct (cqt_sums _ _ _ _ _) as [sumReal sumImag]. cbn [fst snd].
    rewrite !length_wr. split; [exact H1|]. split; [exact H2|].
    intros x Hx. rewrite !rdf_wr_ne by lia. apply H3. lia. }
  specialize (Hloop _ eq_refl). cbv zeta in Hloop.
  destruct (for_range 0 totalBins _ (outputReal, outputImag)) as [outR outI].
  cbn [fst snd] in Hloop. destruct Hloop as (H1 & H2 & H3).
  injection E as <- <- <- <-. exists outR, outI.
  split; [reflexivity|]. split; [reflexivity|]. split; [exact H1|]. split; [exact H2|].
  split; [discriminate|exact H3].
Qed.

Lemma cqt_writes_only_requested_bins_witness :
  cqt (Some [F32.zero]) (Some [F32.one]) (Some [F32.two; F32.two]) (Some [F32.two; F32.two])
      1 1 1 unit_bank
  = (true, Some [F32.neg F32.one; F32.two], Some [F32.zero; F32.two], unit_bank)
  /\ exists outR outI,
       Some [F32.neg F32.one; F32.two] = Some outR /\ Some [F32.zero; F32.two] = Some outI
       /\ length outR = length [F32.two; F32.two] /\ length outI = length [F32.two; F32.two]
       /\ (true = false -> outR = [F32.two; F32.two] /\ outI = [F32.two; F32.two])
       /\ forall x, x < 0 \/ Int.mul 1 1 <= x ->
            rdf outR x = rdf [F32.two; F32.two] x /\ rdf outI x = rdf [F32.two; F32.two] x.
Proof.
  split; [vm_compute; reflexivity|].
  apply (cqt_writes_only_requested_bins [F32.zero] [F32.one] [F32.two; F32.two]
           [F32.two; F32.two] 1 1 1 unit_bank unit_bank true).
  vm_compute; reflexivity.
Defined.

(** X13. After [freeCQT] the bank is empty, so every call of [cqt] that asks for
    at least one bin is refused and hands its output buffers back. *)
Theorem cqt_after_freeCQT_refused (inputReal inputImag outputReal outputImag : buffer)
    (n binsPerOctave octaves : Z) (e : engine) :
  0 < Int.mul binsPerOctave octaves ->
  cqt inputReal inputImag outputReal outputImag n binsPerOctave octaves (snd (freeCQT e))
  = (false, outputReal, outputImag, snd (freeCQT e)).
Proof.
  intros H. unfold cqt.
  destruct inputReal, inputImag, outputReal, outputImag; try reflexivity.
  destruct (_ || _); [reflexivity|].
  cbn [freeCQT snd cqtKernelReal with_kernels length].
  change (Int.wrap32 (Z.of_nat 0)) with 0.
  rewrite (proj2 (Z.ltb_lt _ _) H). reflexivity.
Qed.

Lemma cqt_after_freeCQT_refused_witness :
  0 < Int.mul 1 2
  /\ cqt (Some [F32.one; F32.zero]) (Some [F32.zero; F32.zero])
         (Some [F32.two; F32.two]) (Some [F32.two; F32.two]) 2 1 2 (snd (freeCQT engine2_cqt))
     = (false, Some [F32.two; F32.two], Some [F32.two; F32.two], snd (freeCQT engine2_cqt)).
Proof.
  split; [reflexivity|].
  apply (cqt_after_freeCQT_refused _ _ _ _ 2 1 2 engine2_cqt). reflexivity.
Defined.

(** X14. What the IEEE division of [1.0f / (filterLen - 1)] leads to for a
    filter of one sample, with a libm whose [cosf] maps NaN to NaN: the
    quotient is [+infinity], the window argument [0 * infinity] is NaN, and the
    single sample of the time-domain kernel is NaN in both parts. *)
Theorem unit_filter_kernel_is_nan `{LibM} (n : Z) (sampleRate freq : float) :
  cosf S754_nan = S754_nan ->
  time_kernel ieee_div n 1 sampleRate freq
  = Some (wr (block F32.zero n) 0 S754_nan, wr (block F32.zero n) 0 S754_nan).
Proof.
  intros Hnan. unfold time_kernel, ieee_div. cbn [mbind option_bind].
  rewrite for_range_step, for_range_nil by lia. cbv beta iota.
  change (window_arg 0 (F32.div F32.one (F32.of_Z (1 - 1)))) with S754_nan.
  rewrite Hnan. reflexivity.
Qed.

Lemma unit_filter_kernel_is_nan_witness :
  cosf (LibM := sample_libm) S754_nan = S754_nan
  /\ time_kernel (L := sample_libm) ieee_div 1 1 (F32.of_Z 8) (F32.of_Z 1)
     = Some ([S754_nan], [S754_nan]).
Proof.
  split; [reflexivity|].
  apply (@unit_filter_kernel_is_nan sample_libm 1 (F32.of_Z 8) (F32.of_Z 1)). reflexivity.
Defined.
